(** * Neat Pulse MCP server: the request/response adapter, embedded in Rocq

    A shallow embedding of [src/client.ts] (the [NeatPulseClient] class) and of
    the tool registrations that follow it in the same source file, together
    with the parts of the JavaScript platform the code calls: UTF-16 strings,
    [Number::toString], [JSON.stringify], [JSON.parse], [URLSearchParams] and
    the observable part of [fetch].

    Conventions.
    - A JavaScript string is the list of its UTF-16 code units ([N]).
    - A promise is the computation it settles with: rejection is [Throw],
      fulfilment is [Return]; [await] is monadic bind.
    - The remote service is an oracle of the environment: a total function
      from the request (and the requests sent before it) to the outcome of
      [fetch].  A remote call that never settles is outside the model.
    - Numbers: binary64 rounding is not modelled.  A finite non-zero number
      is represented by the decimal [m * 10^e] that [Number::toString]
      prints for it ([m] positive and not a multiple of ten); overflow to
      [Infinity], underflow to zero and the sign of zero are modelled.
    - [JSON.stringify] and [JSON.parse] are those of ECMA-262, which puts no
      bound on nesting: the [RangeError] an engine raises for a value nested
      deeper than its stack allows is outside the model. *)

From Stdlib Require Import ZArith NArith List String Ascii Bool Lia ZifyBool.
Import ListNotations.
Open Scope Z_scope.

(* ================================================================== *)
(** * Strings *)

(** UTF-16 code units. *)
Definition code_unit := N.
Definition jsstring := list code_unit.

(** A string literal of the source (ASCII only). *)
Definition lit (s : string) : jsstring :=
  map N_of_ascii (list_ascii_of_string s).

Fixpoint starts_with (t s : jsstring) : bool :=
  match t, s with
  | [], _ => true
  | _ :: _, [] => false
  | a :: t', b :: s' => N.eqb a b && starts_with t' s'
  end.

(** [String.prototype.includes]: [t] occurs in [s] as a substring. *)
Fixpoint includes (s t : jsstring) : bool :=
  starts_with t s ||
  match s with
  | [] => false
  | _ :: s' => includes s' t
  end.

Fixpoint jsstring_eqb (a b : jsstring) : bool :=
  match a, b with
  | [], [] => true
  | x :: a', y :: b' => N.eqb x y && jsstring_eqb a' b'
  | _, _ => false
  end.

(** Joining with a separator, as [Array.prototype.join]. *)
Fixpoint join (sep : jsstring) (parts : list jsstring) : jsstring :=
  match parts with
  | [] => []
  | [p] => p
  | p :: rest => p ++ sep ++ join sep rest
  end.

(* ------------------------------------------------------------------ *)
(** ** Decimal digits *)

Definition digit_char (d : Z) : code_unit := Z.to_N (48 + d).
Definition is_digit (c : code_unit) : bool := (48 <=? c)%N && (c <=? 57)%N.
Definition digit_val (c : code_unit) : Z := Z.of_N c - 48.

Fixpoint digits_aux (fuel : nat) (n : Z) (acc : list Z) : list Z :=
  match fuel with
  | O => n :: acc
  | S fuel' =>
      if n <? 10 then n :: acc
      else digits_aux fuel' (n / 10) (n mod 10 :: acc)
  end.

(** The decimal digits of a non-negative integer, most significant first. *)
Definition digits (n : Z) : list Z :=
  digits_aux (Z.to_nat (Z.log2 n)) n [].

Definition num_of_digits (ds : list Z) : Z :=
  fold_left (fun acc d => 10 * acc + d) ds 0.

Definition digit_chars (ds : list Z) : jsstring := map digit_char ds.

Definition zeros (n : Z) : jsstring := repeat 48%N (Z.to_nat n).

(** The longest prefix of decimal digits, as digit values, and what follows. *)
Fixpoint span_digits (s : jsstring) : list Z * jsstring :=
  match s with
  | c :: s' =>
      if is_digit c then
        let (ds, r) := span_digits s' in (digit_val c :: ds, r)
      else ([], s)
  | [] => ([], [])
  end.

(* ================================================================== *)
(** * Numbers *)

(** The Number type.  [Finite neg m e] is [(-1)^neg * m * 10^e]. *)
Inductive number : Type :=
| NaN
| Infinity (neg : bool)
| Zero (neg : bool)
| Finite (neg : bool) (m : Z) (e : Z).

(** [m * 10^e] rounds to [Infinity]: it is at least [2^1024 - 2^970], the
    midpoint between the largest finite double and [2^1024]. *)
Definition overflows (m e : Z) : bool :=
  if 0 <=? e then 2 ^ 1024 - 2 ^ 970 <=? m * 10 ^ e
  else (2 ^ 1024 - 2 ^ 970) * 10 ^ (- e) <=? m.

(** [m * 10^e] rounds to zero: it is at most [2^-1075], half the smallest
    subnormal double. *)
Definition underflows (m e : Z) : bool :=
  if 0 <=? e then false
  else m * 2 ^ 1075 <=? 10 ^ (- e).

(** A representation invariant: the decimal is normalised and in range. *)
Definition wf_number (x : number) : bool :=
  match x with
  | Finite _ m e =>
      (0 <? m) && negb (m mod 10 =? 0) &&
      negb (overflows m e) && negb (underflows m e)
  | _ => true
  end.

Definition is_finite (x : number) : bool :=
  match x with
  | Zero _ | Finite _ _ _ => true
  | _ => false
  end.

(** [Number::toString] (radix 10), ECMA-262 6.1.6.1.20: [k] digits [ds] of
    the mantissa and the position [n] of the decimal point. *)
Definition Number_toString (x : number) : jsstring :=
  match x with
  | NaN => lit "NaN"
  | Zero _ => lit "0"
  | Infinity neg => (if neg then lit "-" else []) ++ lit "Infinity"
  | Finite neg m e =>
      let ds := digits m in
      let k := Z.of_nat (List.length ds) in
      let n := k + e in
      (if neg then lit "-" else []) ++
      if (-5 <=? n) && (n <=? 21) then
        if k <=? n then digit_chars ds ++ zeros (n - k)
        else if 0 <? n then
          digit_chars (firstn (Z.to_nat n) ds) ++ lit "." ++
          digit_chars (skipn (Z.to_nat n) ds)
        else lit "0." ++ zeros (- n) ++ digit_chars ds
      else
        let x := n - 1 in
        let exponent :=
          lit "e" ++ (if x <? 0 then lit "-" else lit "+") ++
          digit_chars (digits (Z.abs x)) in
        match ds with
        | [] => []
        | [d] => [digit_char d] ++ exponent
        | d :: rest => [digit_char d] ++ lit "." ++ digit_chars rest ++ exponent
        end
  end.

(** Dividing out the factors of ten of a mantissa. *)
Fixpoint strip10 (fuel : nat) (m e : Z) : Z * Z :=
  match fuel with
  | O => (m, e)
  | S fuel' =>
      if (m mod 10 =? 0) && negb (m =? 0) then strip10 fuel' (m / 10) (e + 1)
      else (m, e)
  end.

(** The Number denoted by a decimal literal with digits [ds], scaled by
    [10^e] (StringToNumber without binary rounding). *)
Definition to_number (neg : bool) (ds : list Z) (e : Z) : number :=
  let v := num_of_digits ds in
  if v =? 0 then Zero neg
  else
    let (m, e') := strip10 (List.length ds) v e in
    if overflows m e' then Infinity neg
    else if underflows m e' then Zero neg
    else Finite neg m e'.

(** The optional exponent part of a JSON number: [[eE][+-]?[0-9]+]. *)
Definition parse_exponent (s : jsstring) : option (Z * jsstring) :=
  match s with
  | c :: s1 =>
      if (c =? 101)%N || (c =? 69)%N then
        let (sign, s2) :=
          match s1 with
          | d :: s2' =>
              if (d =? 45)%N then (-1, s2')
              else if (d =? 43)%N then (1, s2')
              else (1, s1)
          | [] => (1, s1)
          end in
        match span_digits s2 with
        | ([], _) => None
        | (ds, r) => Some (sign * num_of_digits ds, r)
        end
      else Some (0, s)
  | [] => Some (0, s)
  end.

(** The optional fraction part of a JSON number: [\.[0-9]+]. *)
Definition parse_fraction (s : jsstring) : option (list Z * jsstring) :=
  match s with
  | c :: s1 =>
      if (c =? 46)%N then
        match span_digits s1 with
        | ([], _) => None
        | (ds, r) => Some (ds, r)
        end
      else Some ([], s)
  | [] => Some ([], s)
  end.

(** The integer part of a JSON number: [0|[1-9][0-9]*]. *)
Definition parse_int (s : jsstring) : option (list Z * jsstring) :=
  match s with
  | c :: s1 =>
      if (c =? 48)%N then Some ([0], s1)
      else if is_digit c then
        let (ds, r) := span_digits s1 in Some (digit_val c :: ds, r)
      else None
  | [] => None
  end.

(** A JSON number token at the head of [s]. *)
Definition parse_number (s : jsstring) : option (number * jsstring) :=
  let (neg, s0) :=
    match s with
    | c :: s' => if (c =? 45)%N then (true, s') else (false, s)
    | [] => (false, s)
    end in
  match parse_int s0 with
  | None => None
  | Some (ip, s1) =>
      match parse_fraction s1 with
      | None => None
      | Some (fp, s2) =>
          match parse_exponent s2 with
          | None => None
          | Some (x, s3) =>
              Some (to_number neg (ip ++ fp) (x - Z.of_nat (List.length fp)), s3)
          end
      end
  end.

(* ================================================================== *)
(** * JSON values *)

(** The values the adapter handles: what [JSON.parse] returns and what the
    validated tool arguments are.  An object lists its own enumerable
    properties in the order [OrdinaryOwnPropertyKeys] reports them. *)
Unset Elimination Schemes.
Inductive value : Type :=
| JNull
| JBool (b : bool)
| JNum (n : number)
| JStr (s : jsstring)
| JArr (elems : list value)
| JObj (members : list (jsstring * value)).
Set Elimination Schemes.

(** The integer an array-index property key denotes: a canonical numeric
    string below [2^32 - 1]. *)
Definition array_index (k : jsstring) : option Z :=
  match span_digits k with
  | (d :: ds, []) =>
      if (d =? 0) && negb (List.length ds =? 0)%nat then None
      else
        let i := num_of_digits (d :: ds) in
        if i <=? 4294967294 then Some i else None
  | _ => None
  end.

(** Key [k] is reported before key [k'] whatever the order of creation:
    array indices ascend and precede every other key. *)
Definition key_before (k k' : jsstring) : bool :=
  match array_index k, array_index k' with
  | Some i, Some j => i <? j
  | Some _, None => true
  | None, _ => false
  end.

(** [CreateDataProperty] on an ordinary object: an existing key keeps its
    place and takes the new value; a new key takes its place in the order. *)
Fixpoint obj_set (k : jsstring) (v : value) (o : list (jsstring * value))
  : list (jsstring * value) :=
  match o with
  | [] => [(k, v)]
  | (k', v') :: o' =>
      if jsstring_eqb k k' then (k, v) :: o'
      else if key_before k k' then (k, v) :: (k', v') :: o'
      else (k', v') :: obj_set k v o'
  end.

(** The keys of an object are distinct and in property order. *)
Fixpoint wf_members (o : list (jsstring * value)) : bool :=
  match o with
  | [] => true
  | (k, _) :: o' =>
      forallb (fun kv => negb (jsstring_eqb (fst kv) k) &&
                         negb (key_before (fst kv) k)) o' &&
      wf_members o'
  end.

(** A value as the platform can hold it: numbers normalised, objects in
    property order. *)
Fixpoint wf_value (v : value) : bool :=
  match v with
  | JNum n => wf_number n
  | JArr l => forallb wf_value l
  | JObj o => wf_members o && forallb (fun kv => wf_value (snd kv)) o
  | _ => true
  end.

(** No number in the value is [NaN], an infinity or negative zero. *)
Fixpoint plain_numbers (v : value) : bool :=
  match v with
  | JNum (Finite _ _ _) | JNum (Zero false) => true
  | JNum _ => false
  | JArr l => forallb plain_numbers l
  | JObj o => forallb (fun kv => plain_numbers (snd kv)) o
  | _ => true
  end.

(* ------------------------------------------------------------------ *)
(** ** JSON.stringify *)

Definition hex_lower (d : N) : code_unit :=
  (if d <? 10 then 48 + d else 87 + d)%N.

(** [UnicodeEscape]: [\u] and four lowercase hexadecimal digits. *)
Definition unicode_escape (c : code_unit) : jsstring :=
  [92; 117; hex_lower (c / 4096); hex_lower ((c / 256) mod 16);
   hex_lower ((c / 16) mod 16); hex_lower (c mod 16)]%N.

Definition is_high_surrogate (c : code_unit) : bool :=
  (55296 <=? c)%N && (c <=? 56319)%N.
Definition is_low_surrogate (c : code_unit) : bool :=
  (56320 <=? c)%N && (c <=? 57343)%N.
Definition is_surrogate (c : code_unit) : bool :=
  (55296 <=? c)%N && (c <=? 57343)%N.

(** One code point that is not the leading half of a surrogate pair. *)
Definition quote_unit (c : code_unit) : jsstring :=
  (if c =? 8 then [92; 98]
   else if c =? 9 then [92; 116]
   else if c =? 10 then [92; 110]
   else if c =? 12 then [92; 102]
   else if c =? 13 then [92; 114]
   else if c =? 34 then [92; 34]
   else if c =? 92 then [92; 92]
   else if (c <? 32) || is_surrogate c then unicode_escape c
   else [c])%N.

Fixpoint quote_units (s : jsstring) : jsstring :=
  match s with
  | [] => []
  | c :: t =>
      if is_high_surrogate c then
        match t with
        | d :: t' =>
            if is_low_surrogate d then c :: d :: quote_units t'
            else unicode_escape c ++ quote_units t
        | [] => unicode_escape c
        end
      else quote_unit c ++ quote_units t
  end.

(** [QuoteJSONString], ECMA-262 25.5.2.3. *)
Definition QuoteJSONString (s : jsstring) : jsstring :=
  [34%N] ++ quote_units s ++ [34%N].

Definition is_empty {A : Type} (l : list A) : bool :=
  match l with [] => true | _ => false end.

(** [SerializeJSONProperty] with its [SerializeJSONObject] and
    [SerializeJSONArray], for a state with the given [gap] and [indent]
    and no replacer. *)
Fixpoint serialize (gap indent : jsstring) (v : value) : jsstring :=
  match v with
  | JNull => lit "null"
  | JBool true => lit "true"
  | JBool false => lit "false"
  | JNum n => if is_finite n then Number_toString n else lit "null"
  | JStr s => QuoteJSONString s
  | JArr l =>
      let stepback := indent in
      let indent := indent ++ gap in
      let partial := map (serialize gap indent) l in
      if is_empty partial then lit "[]"
      else if is_empty gap then lit "[" ++ join (lit ",") partial ++ lit "]"
      else
        lit "[" ++ [10%N] ++ indent ++
        join (lit "," ++ [10%N] ++ indent) partial ++
        [10%N] ++ stepback ++ lit "]"
  | JObj o =>
      let stepback := indent in
      let indent := indent ++ gap in
      let partial :=
        map (fun kv =>
               QuoteJSONString (fst kv) ++ lit ":" ++
               (if is_empty gap then [] else lit " ") ++
               serialize gap indent (snd kv)) o in
      if is_empty partial then lit "{}"
      else if is_empty gap then lit "{" ++ join (lit ",") partial ++ lit "}"
      else
        lit "{" ++ [10%N] ++ indent ++
        join (lit "," ++ [10%N] ++ indent) partial ++
        [10%N] ++ stepback ++ lit "}"
  end.

(** [JSON.stringify(value)]. *)
Definition JSON_stringify (v : value) : jsstring := serialize [] [] v.

(** [JSON.stringify(value, null, 2)]: the gap is two spaces. *)
Definition JSON_stringify_pretty (v : value) : jsstring :=
  serialize (lit "  ") [] v.

(* ------------------------------------------------------------------ *)
(** ** JSON.parse *)

Definition is_ws (c : code_unit) : bool :=
  ((c =? 32) || (c =? 9) || (c =? 10) || (c =? 13))%N.

Fixpoint skip_ws (s : jsstring) : jsstring :=
  match s with
  | c :: s' => if is_ws c then skip_ws s' else s
  | [] => []
  end.

Definition hex_val (c : code_unit) : option N :=
  (if is_digit c then Some (c - 48)
   else if (97 <=? c) && (c <=? 102) then Some (c - 87)
   else if (65 <=? c) && (c <=? 70) then Some (c - 55)
   else None)%N.

Definition hex4 (a b c d : code_unit) : option code_unit :=
  match hex_val a, hex_val b, hex_val c, hex_val d with
  | Some x, Some y, Some z, Some w => Some (4096 * x + 256 * y + 16 * z + w)%N
  | _, _, _, _ => None
  end.

(** The character a single-character escape denotes. *)
Definition unescape (c : code_unit) : option code_unit :=
  (if c =? 34 then Some 34
   else if c =? 92 then Some 92
   else if c =? 47 then Some 47
   else if c =? 98 then Some 8
   else if c =? 102 then Some 12
   else if c =? 110 then Some 10
   else if c =? 114 then Some 13
   else if c =? 116 then Some 9
   else None)%N.

(** The characters of a JSON string after its opening quote, up to and
    including the closing quote. *)
Fixpoint parse_string (s : jsstring) : option (jsstring * jsstring) :=
  match s with
  | [] => None
  | c :: r =>
      if (c =? 34)%N then Some ([], r)
      else if (c =? 92)%N then
        match r with
        | x :: r1 =>
            if (x =? 117)%N then
              match r1 with
              | h1 :: h2 :: h3 :: h4 :: r2 =>
                  match hex4 h1 h2 h3 h4 with
                  | Some u =>
                      match parse_string r2 with
                      | Some (str, rest) => Some (u :: str, rest)
                      | None => None
                      end
                  | None => None
                  end
              | _ => None
              end
            else
              match unescape x with
              | Some u =>
                  match parse_string r1 with
                  | Some (str, rest) => Some (u :: str, rest)
                  | None => None
                  end
              | None => None
              end
        | [] => None
        end
      else if (c <? 32)%N then None
      else
        match parse_string r with
        | Some (str, rest) => Some (c :: str, rest)
        | None => None
        end
  end.

(** A JSON value at the head of [s], after optional white space; the
    elements of an array after the first; the members of an object. *)
Fixpoint parse_value (fuel : nat) (s : jsstring) : option (value * jsstring) :=
  match fuel with
  | O => None
  | S fuel' =>
      match skip_ws s with
      | [] => None
      | c :: r =>
          if (c =? 34)%N then
            match parse_string r with
            | Some (str, rest) => Some (JStr str, rest)
            | None => None
            end
          else if (c =? 91)%N then
            if starts_with (lit "]") (skip_ws r)
            then Some (JArr [], skipn 1 (skip_ws r))
            else parse_elements fuel' r []
          else if (c =? 123)%N then
            if starts_with (lit "}") (skip_ws r)
            then Some (JObj [], skipn 1 (skip_ws r))
            else parse_members fuel' r []
          else if starts_with (lit "null") (c :: r) then
            Some (JNull, skipn 4 (c :: r))
          else if starts_with (lit "true") (c :: r) then
            Some (JBool true, skipn 4 (c :: r))
          else if starts_with (lit "false") (c :: r) then
            Some (JBool false, skipn 5 (c :: r))
          else
            match parse_number (c :: r) with
            | Some (n, rest) => Some (JNum n, rest)
            | None => None
            end
      end
  end
with parse_elements (fuel : nat) (s : jsstring) (acc : list value)
  : option (value * jsstring) :=
  match fuel with
  | O => None
  | S fuel' =>
      match parse_value fuel' s with
      | Some (v, r) =>
          match skip_ws r with
          | c :: r' =>
              if (c =? 44)%N then parse_elements fuel' r' (v :: acc)
              else if (c =? 93)%N then Some (JArr (rev (v :: acc)), r')
              else None
          | [] => None
          end
      | None => None
      end
  end
with parse_members (fuel : nat) (s : jsstring) (acc : list (jsstring * value))
  : option (value * jsstring) :=
  match fuel with
  | O => None
  | S fuel' =>
      match skip_ws s with
      | q :: r =>
          if (q =? 34)%N then
            match parse_string r with
            | Some (k, r1) =>
                match skip_ws r1 with
                | c :: r2 =>
                    if (c =? 58)%N then
                      match parse_value fuel' r2 with
                      | Some (v, r3) =>
                          match skip_ws r3 with
                          | d :: r4 =>
                              if (d =? 44)%N
                              then parse_members fuel' r4 (obj_set k v acc)
                              else if (d =? 125)%N
                              then Some (JObj (obj_set k v acc), r4)
                              else None
                          | [] => None
                          end
                      | None => None
                      end
                    else None
                | [] => None
                end
            | None => None
            end
          else None
      | [] => None
      end
  end.

(** [JSON.parse(text)]: [None] stands for the [SyntaxError] it throws.
    Every recursive call follows at least one consumed character at most
    two calls earlier, so twice the length of the text is fuel enough. *)
Definition JSON_parse (text : jsstring) : option value :=
  match parse_value (2 * List.length text + 1) text with
  | Some (v, rest) =>
      match skip_ws rest with
      | [] => Some v
      | _ => None
      end
  | None => None
  end.

(** What [JSON.parse] reads back from the serialisation of a value: a
    number that is not finite has become [null], negative zero has become
    zero. *)
Fixpoint jsonify (v : value) : value :=
  match v with
  | JNum n =>
      match n with
      | NaN | Infinity _ => JNull
      | Zero _ => JNum (Zero false)
      | Finite _ _ _ => v
      end
  | JArr l => JArr (map jsonify l)
  | JObj o => JObj (map (fun kv => (fst kv, jsonify (snd kv))) o)
  | _ => v
  end.

(* ================================================================== *)
(** * URLSearchParams *)

(** The scalar values of a string: a surrogate pair is one code point, a
    lone surrogate is replaced by U+FFFD (conversion to [USVString]). *)
Fixpoint code_points (s : jsstring) : list N :=
  match s with
  | [] => []
  | c :: t =>
      if is_high_surrogate c then
        match t with
        | d :: t' =>
            if is_low_surrogate d
            then (65536 + (c - 55296) * 1024 + (d - 56320))%N :: code_points t'
            else 65533%N :: code_points t
        | [] => [65533%N]
        end
      else if is_low_surrogate c then 65533%N :: code_points t
      else c :: code_points t
  end.

Definition utf8_encode (cp : N) : list N :=
  (if cp <? 128 then [cp]
   else if cp <? 2048 then [192 + cp / 64; 128 + cp mod 64]
   else if cp <? 65536 then
     [224 + cp / 4096; 128 + (cp / 64) mod 64; 128 + cp mod 64]
   else
     [240 + cp / 262144; 128 + (cp / 4096) mod 64;
      128 + (cp / 64) mod 64; 128 + cp mod 64])%N.

Definition hex_upper (d : N) : code_unit :=
  (if d <? 10 then 48 + d else 55 + d)%N.

(** Bytes the [application/x-www-form-urlencoded] serialiser leaves as they
    are: ASCII alphanumerics and [*], [-], [.], [_]. *)
Definition urlencoded_safe (b : N) : bool :=
  ((b =? 42) || (b =? 45) || (b =? 46) || (b =? 95) ||
   ((48 <=? b) && (b <=? 57)) || ((65 <=? b) && (b <=? 90)) ||
   ((97 <=? b) && (b <=? 122)))%N.

Definition urlencode_byte (b : N) : jsstring :=
  if (b =? 32)%N then lit "+"
  else if urlencoded_safe b then [b]
  else [37%N; hex_upper (b / 16); hex_upper (b mod 16)].

Definition urlencode (s : jsstring) : jsstring :=
  flat_map urlencode_byte (flat_map utf8_encode (code_points s)).

(** The list of name-value pairs of a [URLSearchParams] object. *)
Definition URLSearchParams := list (jsstring * jsstring).

(** [params.set(name, value)]: the first pair of that name takes the value
    and the others go; without one, the pair is appended. *)
Fixpoint params_set (name val : jsstring) (params : URLSearchParams)
  : URLSearchParams :=
  match params with
  | [] => [(name, val)]
  | (n, v) :: rest =>
      if jsstring_eqb n name
      then (n, val) :: filter (fun nv => negb (jsstring_eqb (fst nv) name)) rest
      else (n, v) :: params_set name val rest
  end.

(** [params.toString()]. *)
Definition params_toString (params : URLSearchParams) : jsstring :=
  join (lit "&")
       (map (fun nv => urlencode (fst nv) ++ lit "=" ++ urlencode (snd nv))
            params).

(** [String(b)] for a boolean. *)
Definition Boolean_toString (b : bool) : jsstring :=
  if b then lit "true" else lit "false".

(* ================================================================== *)
(** * Errors, requests, responses and the effect monad *)

(** An [Error] object: its class and its [message]. *)
Record JsError : Type := mkError { name : jsstring; message : jsstring }.

Definition Error (msg : jsstring) : JsError := mkError (lit "Error") msg.
Definition SyntaxError (msg : jsstring) : JsError :=
  mkError (lit "SyntaxError") msg.

Inductive Result (A : Type) : Type :=
| Return (a : A)
| Throw (e : JsError).
Arguments Return {A} a.
Arguments Throw {A} e.

(** What [fetch(url, options)] is called with. *)
Record Request : Type := mkRequest {
  req_url : jsstring;
  req_method : jsstring;
  req_headers : list (jsstring * jsstring);
  req_body : option jsstring
}.

(** What the code observes of a [Response]: the status, the value of
    [headers.get("content-type")] ([None] for [null]) and the outcome of
    reading the body as text. *)
Record Response : Type := mkResponse {
  status : Z;
  content_type : option jsstring;
  body_text : Result jsstring
}.

(** [res.ok]: the status is in the range 200 to 299. *)
Definition ok (res : Response) : bool :=
  (200 <=? status res) && (status res <=? 299).

(** The environment of a run: how the network answers a request, given
    the requests sent before it ([Throw] when [fetch] rejects), and the
    wording of the engine's [SyntaxError] for a text that is not JSON. *)
Record Env : Type := mkEnv {
  remote : list Request -> Request -> Result Response;
  syntax_message : jsstring -> jsstring
}.

(** A computation reads the environment, appends to the log of requests
    sent, and returns or throws. *)
Definition M (A : Type) : Type := Env -> list Request -> Result A * list Request.

Definition ret {A} (a : A) : M A := fun _ log => (Return a, log).
Definition throw {A} (e : JsError) : M A := fun _ log => (Throw e, log).
Definition bind {A B} (m : M A) (k : A -> M B) : M B :=
  fun env log =>
    match m env log with
    | (Return a, log') => k a env log'
    | (Throw e, log') => (Throw e, log')
    end.
Definition try_catch {A} (m : M A) (handler : JsError -> M A) : M A :=
  fun env log =>
    match m env log with
    | (Return a, log') => (Return a, log')
    | (Throw e, log') => handler e env log'
    end.
Definition lift {A} (r : Result A) : M A := fun _ log => (r, log).

Notation "x <- m ;; k" := (bind m (fun x => k))
  (at level 61, m at next level, right associativity).
Notation "'try' m 'catch' h" := (try_catch m h) (at level 61, m at next level).

(** [fetch(url, options)]: one request goes out. *)
Definition fetch (req : Request) : M Response :=
  fun env log => (remote env log req, log ++ [req]).

(** [JSON.parse(text)] as a computation. *)
Definition JSON_parse_M (text : jsstring) : M value :=
  fun env log =>
    match JSON_parse text with
    | Some v => (Return v, log)
    | None => (Throw (SyntaxError (syntax_message env text)), log)
    end.

(** [res.text()] and [res.json()]. *)
Definition res_text (res : Response) : M jsstring := lift (body_text res).
Definition res_json (res : Response) : M value :=
  text <- res_text res ;; JSON_parse_M text.

(** The Number of an integer, for [res.status] in a template literal. *)
Definition int_number (z : Z) : number :=
  if z =? 0 then Zero false
  else
    let (m, e) := strip10 (Z.to_nat (Z.log2 (Z.abs z))) (Z.abs z) 0 in
    Finite (z <? 0) m e.

(* ================================================================== *)
(** * The API client ([NeatPulseClient]) *)

Definition BASE_URL : jsstring := lit "https://api.pulse.neat.no/v1".

Record PulseClientConfig : Type := mkConfig {
  apiKey : jsstring;
  orgId : jsstring
}.

Record NeatPulseClient : Type := mkClient {
  this_apiKey : jsstring;
  this_orgId : jsstring
}.

(** [constructor(config)]: the two fields are assigned, nothing else. *)
Definition constructor (config : PulseClientConfig) : M NeatPulseClient :=
  ret {| this_apiKey := apiKey config; this_orgId := orgId config |}.

(** The [headers] getter: an object of three properties. *)
Definition headers (this : NeatPulseClient) : list (jsstring * jsstring) :=
  [ (lit "Authorization", lit "Bearer " ++ this_apiKey this);
    (lit "Content-Type", lit "application/json");
    (lit "Accept", lit "application/json") ].

(** [url(path)]: the base, the organisation prefix and the path. *)
Definition url (this : NeatPulseClient) (path : jsstring) : jsstring :=
  BASE_URL ++ lit "/orgs/" ++ this_orgId this ++ path.

(** The [options] of [request]: [body] is set only when one is given. *)
Definition request_options (this : NeatPulseClient) (method path : jsstring)
  (body : option value) : Request :=
  {| req_url := url this path;
     req_method := method;
     req_headers := headers this;
     req_body := match body with
                 | Some b => Some (JSON_stringify b)
                 | None => None
                 end |}.

(** The message of the error thrown for a response that is not [ok]. *)
Definition failure_message (method path : jsstring) (res_status : Z)
  (text : jsstring) : jsstring :=
  lit "Neat Pulse API " ++ method ++ lit " " ++ path ++ lit " returned " ++
  Number_toString (int_number res_status) ++ lit ": " ++ text.

(** [request(method, path, body?)]: [None] is a [body] that is
    [undefined].  One [fetch]; a response that is not [ok] becomes an
    [Error], read with a body text that falls back to the empty string; a
    response that is [ok] is parsed as JSON when its content type includes
    [application/json] and read as text otherwise. *)
Definition request (this : NeatPulseClient) (method path : jsstring)
  (body : option value) : M value :=
  res <- fetch (request_options this method path body) ;;
  if negb (ok res) then
    text <- (try res_text res catch (fun _ => ret [])) ;;
    throw (Error (failure_message method path (status res) text))
  else
    let contentType :=
      match content_type res with Some ct => ct | None => [] end in
    if includes contentType (lit "application/json") then
      v <- res_json res ;; ret v
    else
      text <- res_text res ;; ret (JStr text).

(** [`?${qs}`] when [qs] is not empty. *)
Definition query_suffix (qs : jsstring) : jsstring :=
  if is_empty qs then [] else lit "?" ++ qs.

(** [if (x !== undefined) params.set(name, String(x))]. *)
Definition set_if_defined {A} (name : jsstring) (x : option A)
  (to_string : A -> jsstring) (params : URLSearchParams) : URLSearchParams :=
  match x with
  | Some a => params_set name (to_string a) params
  | None => params
  end.

(** ** Endpoints (devices) *)

Definition listEndpoints (this : NeatPulseClient)
  (regionId locationId : option number) : M value :=
  let params : URLSearchParams := [] in
  let params := set_if_defined (lit "regionId") regionId Number_toString params in
  let params := set_if_defined (lit "locationId") locationId Number_toString params in
  let qs := params_toString params in
  request this (lit "GET") (lit "/endpoints" ++ query_suffix qs) None.

Definition getEndpoint (this : NeatPulseClient) (id : jsstring) : M value :=
  request this (lit "GET") (lit "/endpoints/" ++ id) None.

Definition getEndpointSettings (this : NeatPulseClient) (id : jsstring) : M value :=
  request this (lit "GET") (lit "/endpoints/" ++ id ++ lit "/config") None.

Definition applyEndpointConfig (this : NeatPulseClient) (id : jsstring)
  (config : value) : M value :=
  request this (lit "POST") (lit "/endpoints/" ++ id ++ lit "/config") (Some config).

Definition rebootEndpoint (this : NeatPulseClient) (id : jsstring) : M value :=
  request this (lit "POST") (lit "/endpoints/" ++ id ++ lit "/reboot") None.

Definition deleteEndpoint (this : NeatPulseClient) (id : jsstring) : M value :=
  request this (lit "DELETE") (lit "/endpoints/" ++ id) None.

Definition getEndpointSensorData (this : NeatPulseClient) (id : jsstring) : M value :=
  request this (lit "GET") (lit "/endpoints/" ++ id ++ lit "/sensor") None.

Definition getBulkSensorData (this : NeatPulseClient)
  (regionId locationId : option number) : M value :=
  let params : URLSearchParams := [] in
  let params := set_if_defined (lit "regionId") regionId Number_toString params in
  let params := set_if_defined (lit "locationId") locationId Number_toString params in
  let qs := params_toString params in
  request this (lit "GET") (lit "/endpoints/sensor" ++ query_suffix qs) None.

(** ** Rooms *)

Definition listRooms (this : NeatPulseClient) : M value :=
  request this (lit "GET") (lit "/rooms") None.

Definition getRoom (this : NeatPulseClient) (id : jsstring) : M value :=
  request this (lit "GET") (lit "/rooms/" ++ id) None.

Definition createRoom (this : NeatPulseClient) (data : value) : M value :=
  request this (lit "POST") (lit "/rooms") (Some data).

Definition updateRoom (this : NeatPulseClient) (id : jsstring) (data : value)
  : M value :=
  request this (lit "PUT") (lit "/rooms/" ++ id) (Some data).

Definition deleteRoom (this : NeatPulseClient) (id : jsstring) : M value :=
  request this (lit "DELETE") (lit "/rooms/" ++ id) None.

Definition getRoomSensorData (this : NeatPulseClient) (id : jsstring) : M value :=
  request this (lit "GET") (lit "/rooms/" ++ id ++ lit "/sensor") None.

Definition getBulkRoomSensorData (this : NeatPulseClient) : M value :=
  request this (lit "GET") (lit "/rooms/sensor") None.

Definition regenerateRoomDec (this : NeatPulseClient) (id : jsstring) : M value :=
  request this (lit "POST") (lit "/rooms/" ++ id ++ lit "/regenerate-dec") None.

(** ** Locations *)

Definition listLocations (this : NeatPulseClient) : M value :=
  request this (lit "GET") (lit "/locations") None.

Definition createLocation (this : NeatPulseClient) (data : value) : M value :=
  request this (lit "POST") (lit "/locations") (Some data).

Definition updateLocation (this : NeatPulseClient) (id : number) (data : value)
  : M value :=
  request this (lit "PUT") (lit "/locations/" ++ Number_toString id) (Some data).

Definition deleteLocation (this : NeatPulseClient) (id : number) : M value :=
  request this (lit "DELETE") (lit "/locations/" ++ Number_toString id) None.

(** ** Regions *)

Definition listRegions (this : NeatPulseClient) : M value :=
  request this (lit "GET") (lit "/regions") None.

Definition createRegion (this : NeatPulseClient) (data : value) : M value :=
  request this (lit "POST") (lit "/regions") (Some data).

Definition updateRegion (this : NeatPulseClient) (id : number) (data : value)
  : M value :=
  request this (lit "PUT") (lit "/regions/" ++ Number_toString id) (Some data).

Definition deleteRegion (this : NeatPulseClient) (id : number) : M value :=
  request this (lit "DELETE") (lit "/regions/" ++ Number_toString id) None.

(** ** Profiles *)

Definition listProfiles (this : NeatPulseClient) : M value :=
  request this (lit "GET") (lit "/profiles") None.

(** ** Audit logs *)

Definition getAuditLogs (this : NeatPulseClient) (from to : jsstring)
  (pageToken : option jsstring) (pageSize : option number) : M value :=
  let params : URLSearchParams := [(lit "from", from); (lit "to", to)] in
  let params := set_if_defined (lit "pageToken") pageToken (fun s => s) params in
  let params := set_if_defined (lit "pageSize") pageSize Number_toString params in
  request this (lit "GET") (lit "/audit/logs?" ++ params_toString params) None.

(** ** Bug reports *)

Definition generateBugReport (this : NeatPulseClient) (ids : list jsstring)
  (uploadInCallLogs : option bool) : M value :=
  let params : URLSearchParams := [] in
  let params :=
    set_if_defined (lit "uploadInCallLogs") uploadInCallLogs Boolean_toString
                   params in
  let qs := params_toString params in
  request this (lit "POST")
          (lit "/endpoints/generate_bug_report" ++ query_suffix qs)
          (Some (JArr (map JStr ids))).

(** ** Room notes *)

Definition listRoomNotes (this : NeatPulseClient) (roomId : jsstring) : M value :=
  request this (lit "GET") (lit "/rooms/" ++ roomId ++ lit "/notes") None.

Definition getRoomNote (this : NeatPulseClient) (roomId noteId : jsstring)
  : M value :=
  request this (lit "GET")
          (lit "/rooms/" ++ roomId ++ lit "/notes/" ++ noteId) None.

Definition createRoomNote (this : NeatPulseClient) (roomId : jsstring)
  (content : value) : M value :=
  request this (lit "POST") (lit "/rooms/" ++ roomId ++ lit "/notes")
          (Some content).

Definition deleteRoomNote (this : NeatPulseClient) (roomId noteId : jsstring)
  : M value :=
  request this (lit "DELETE")
          (lit "/rooms/" ++ roomId ++ lit "/notes/" ++ noteId) None.

Definition listAllRoomNotes (this : NeatPulseClient) : M value :=
  request this (lit "GET") (lit "/rooms/notes") None.

(** ** Users *)

Definition listUsers (this : NeatPulseClient) : M value :=
  request this (lit "GET") (lit "/users") None.

Definition getUser (this : NeatPulseClient) (id : jsstring) : M value :=
  request this (lit "GET") (lit "/users/" ++ id) None.

Definition createUser (this : NeatPulseClient) (data : value) : M value :=
  request this (lit "POST") (lit "/users") (Some data).

Definition updateUser (this : NeatPulseClient) (id : jsstring) (data : value)
  : M value :=
  request this (lit "PUT") (lit "/users/" ++ id) (Some data).

Definition deleteUser (this : NeatPulseClient) (id : jsstring) : M value :=
  request this (lit "DELETE") (lit "/users/" ++ id) None.

(* ================================================================== *)
(** * The tool adapter *)

(** ** Bootstrap *)

(** How start-up ends: the process exits with a code after a line on the
    error stream, or the client exists. *)
Inductive Startup : Type :=
| Exit (code : Z) (stderr : jsstring)
| Started (pulse : NeatPulseClient).

(** [!x] for an environment variable: [undefined] or the empty string. *)
Definition falsy (x : option jsstring) : bool :=
  match x with
  | None => true
  | Some s => is_empty s
  end.

(** The string an environment variable holds once it is known to be set. *)
Definition defined (x : option jsstring) : jsstring :=
  match x with
  | Some s => s
  | None => []
  end.

(** The start-up lines before the server is created: the two environment
    variables are read, the process exits with 1 when either is falsy, and
    the client is constructed otherwise. *)
Definition bootstrap (env_apiKey env_orgId : option jsstring) : M Startup :=
  let apiKey := env_apiKey in
  let orgId := env_orgId in
  if falsy apiKey || falsy orgId then
    ret (Exit 1 (lit "Error: NEAT_PULSE_API_KEY and NEAT_PULSE_ORG_ID environment variables are required."))
  else
    pulse <- constructor {| apiKey := defined apiKey; orgId := defined orgId |} ;;
    ret (Started pulse).

(** ** Helpers *)

Record ContentItem : Type := mkContent { type : jsstring; text : jsstring }.

Record ToolEnvelope : Type := mkEnvelope {
  content : list ContentItem;
  isError : option bool
}.

(** [json(data)]: one text item, [JSON.stringify(data, null, 2)]. *)
Definition json (data : value) : ToolEnvelope :=
  {| content := [ {| type := lit "text"; text := JSON_stringify_pretty data |} ];
     isError := None |}.

(** [error(message)]: one text item and [isError: true]. *)
Definition error (message : jsstring) : ToolEnvelope :=
  {| content := [ {| type := lit "text"; text := lit "Error: " ++ message |} ];
     isError := Some true |}.

(** ** Validated arguments *)

Inductive Role : Type := owner | admin.

Definition role_value (r : Role) : value :=
  match r with
  | owner => JStr (lit "owner")
  | admin => JStr (lit "admin")
  end.

(** An argument object as the schema validation hands it to a handler:
    the declared keys in the order of the schema, a key the caller left out
    being absent from the object ([None]), not present with the value
    [undefined]. *)
Fixpoint object_of (fields : list (jsstring * option value))
  : list (jsstring * value) :=
  match fields with
  | [] => []
  | (k, Some v) :: rest => (k, v) :: object_of rest
  | (_, None) :: rest => object_of rest
  end.

(** A call of a registered tool with arguments that passed its schema:
    one constructor per [server.tool] registration, named as the tool, with
    the parameters of its schema; an optional parameter is an [option]. *)
Inductive ToolCall : Type :=
| list_devices (regionId locationId : option number)
| get_device (id : jsstring)
| get_device_settings (id : jsstring)
| apply_device_config (id config : jsstring)
| reboot_device (id : jsstring)
| delete_device (id : jsstring)
| get_device_sensors (id : jsstring)
| get_all_device_sensors (regionId locationId : option number)
| get_room_sensors (id : jsstring)
| get_all_room_sensors
| list_rooms
| get_room (id : jsstring)
| create_room (name : jsstring) (locationId : option number)
| update_room (id : jsstring) (name : option jsstring) (locationId : option number)
| delete_room (id : jsstring)
| regenerate_room_dec (id : jsstring)
| list_locations
| create_location (name : jsstring) (regionId : option number)
| update_location (id : number) (name : option jsstring) (regionId : option number)
| delete_location (id : number)
| list_regions
| create_region (name : jsstring)
| update_region (id : number) (name : jsstring)
| delete_region (id : number)
| list_users
| get_user (id : jsstring)
| create_user (email : jsstring) (role : option Role)
              (regionIds : option (list number))
| update_user (id : jsstring) (role : option Role)
              (regionIds : option (list number))
| delete_user (id : jsstring)
| list_profiles
| get_audit_logs (from to : jsstring) (pageToken : option jsstring)
                 (pageSize : option number)
| generate_bug_report (ids : list jsstring) (uploadInCallLogs : option bool)
| list_room_notes (roomId : jsstring)
| get_room_note (roomId noteId : jsstring)
| create_room_note (roomId content : jsstring)
| delete_room_note (roomId noteId : jsstring)
| list_all_room_notes.

Definition numbers_value (l : list number) : value := JArr (map JNum l).

(** ** The registered handlers *)

(** The callback of each registration: the client call and [json] of its
    result inside [try], [error] of the caught error's message in [catch].
    Where the callback takes [args] whole or the rest of a destructuring,
    the object passed on is built from the fields that are present. *)
Definition handler (pulse : NeatPulseClient) (call : ToolCall) : M ToolEnvelope :=
  match call with
  | list_devices regionId locationId =>
      try (data <- listEndpoints pulse regionId locationId ;; ret (json data))
      catch (fun e => ret (error (message e)))
  | get_device id =>
      try (data <- getEndpoint pulse id ;; ret (json data))
      catch (fun e => ret (error (message e)))
  | get_device_settings id =>
      try (data <- getEndpointSettings pulse id ;; ret (json data))
      catch (fun e => ret (error (message e)))
  | apply_device_config id config =>
      try (parsed <- JSON_parse_M config ;;
           data <- applyEndpointConfig pulse id parsed ;;
           ret (json data))
      catch (fun e => ret (error (message e)))
  | reboot_device id =>
      try (data <- rebootEndpoint pulse id ;; ret (json data))
      catch (fun e => ret (error (message e)))
  | delete_device id =>
      try (data <- deleteEndpoint pulse id ;; ret (json data))
      catch (fun e => ret (error (message e)))
  | get_device_sensors id =>
      try (data <- getEndpointSensorData pulse id ;; ret (json data))
      catch (fun e => ret (error (message e)))
  | get_all_device_sensors regionId locationId =>
      try (data <- getBulkSensorData pulse regionId locationId ;; ret (json data))
      catch (fun e => ret (error (message e)))
  | get_room_sensors id =>
      try (data <- getRoomSensorData pulse id ;; ret (json data))
      catch (fun e => ret (error (message e)))
  | get_all_room_sensors =>
      try (data <- getBulkRoomSensorData pulse ;; ret (json data))
      catch (fun e => ret (error (message e)))
  | list_rooms =>
      try (data <- listRooms pulse ;; ret (json data))
      catch (fun e => ret (error (message e)))
  | get_room id =>
      try (data <- getRoom pulse id ;; ret (json data))
      catch (fun e => ret (error (message e)))
  | create_room name locationId =>
      let args := JObj (object_of [(lit "name", Some (JStr name));
                                   (lit "locationId", option_map JNum locationId)]) in
      try (data <- createRoom pulse args ;; ret (json data))
      catch (fun e => ret (error (message e)))
  | update_room id name locationId =>
      let updates := JObj (object_of [(lit "name", option_map JStr name);
                                      (lit "locationId", option_map JNum locationId)]) in
      try (data <- updateRoom pulse id updates ;; ret (json data))
      catch (fun e => ret (error (message e)))
  | delete_room id =>
      try (data <- deleteRoom pulse id ;; ret (json data))
      catch (fun e => ret (error (message e)))
  | regenerate_room_dec id =>
      try (data <- regenerateRoomDec pulse id ;; ret (json data))
      catch (fun e => ret (error (message e)))
  | list_locations =>
      try (data <- listLocations pulse ;; ret (json data))
      catch (fun e => ret (error (message e)))
  | create_location name regionId =>
      let args := JObj (object_of [(lit "name", Some (JStr name));
                                   (lit "regionId", option_map JNum regionId)]) in
      try (data <- createLocation pulse args ;; ret (json data))
      catch (fun e => ret (error (message e)))
  | update_location id name regionId =>
      let updates := JObj (object_of [(lit "name", option_map JStr name);
                                      (lit "regionId", option_map JNum regionId)]) in
      try (data <- updateLocation pulse id updates ;; ret (json data))
      catch (fun e => ret (error (message e)))
  | delete_location id =>
      try (data <- deleteLocation pulse id ;; ret (json data))
      catch (fun e => ret (error (message e)))
  | list_regions =>
      try (data <- listRegions pulse ;; ret (json data))
      catch (fun e => ret (error (message e)))
  | create_region name =>
      let args := JObj (object_of [(lit "name", Some (JStr name))]) in
      try (data <- createRegion pulse args ;; ret (json data))
      catch (fun e => ret (error (message e)))
  | update_region id name =>
      let updates := JObj (object_of [(lit "name", Some (JStr name))]) in
      try (data <- updateRegion pulse id updates ;; ret (json data))
      catch (fun e => ret (error (message e)))
  | delete_region id =>
      try (data <- deleteRegion pulse id ;; ret (json data))
      catch (fun e => ret (error (message e)))
  | list_users =>
      try (data <- listUsers pulse ;; ret (json data))
      catch (fun e => ret (error (message e)))
  | get_user id =>
      try (data <- getUser pulse id ;; ret (json data))
      catch (fun e => ret (error (message e)))
  | create_user email role regionIds =>
      let args := JObj (object_of [(lit "email", Some (JStr email));
                                   (lit "role", option_map role_value role);
                                   (lit "regionIds", option_map numbers_value regionIds)]) in
      try (data <- createUser pulse args ;; ret (json data))
      catch (fun e => ret (error (message e)))
  | update_user id role regionIds =>
      let updates := JObj (object_of [(lit "role", option_map role_value role);
                                      (lit "regionIds", option_map numbers_value regionIds)]) in
      try (data <- updateUser pulse id updates ;; ret (json data))
      catch (fun e => ret (error (message e)))
  | delete_user id =>
      try (data <- deleteUser pulse id ;; ret (json data))
      catch (fun e => ret (error (message e)))
  | list_profiles =>
      try (data <- listProfiles pulse ;; ret (json data))
      catch (fun e => ret (error (message e)))
  | get_audit_logs from to pageToken pageSize =>
      try (data <- getAuditLogs pulse from to pageToken pageSize ;; ret (json data))
      catch (fun e => ret (error (message e)))
  | generate_bug_report ids uploadInCallLogs =>
      try (data <- generateBugReport pulse ids uploadInCallLogs ;; ret (json data))
      catch (fun e => ret (error (message e)))
  | list_room_notes roomId =>
      try (data <- listRoomNotes pulse roomId ;; ret (json data))
      catch (fun e => ret (error (message e)))
  | get_room_note roomId noteId =>
      try (data <- getRoomNote pulse roomId noteId ;; ret (json data))
      catch (fun e => ret (error (message e)))
  | create_room_note roomId content =>
      try (parsed <- JSON_parse_M content ;;
           data <- createRoomNote pulse roomId parsed ;;
           ret (json data))
      catch (fun e => ret (error (message e)))
  | delete_room_note roomId noteId =>
      try (data <- deleteRoomNote pulse roomId noteId ;; ret (json data))
      catch (fun e => ret (error (message e)))
  | list_all_room_notes =>
      try (data <- listAllRoomNotes pulse ;; ret (json data))
      catch (fun e => ret (error (message e)))
  end.

(** The argument transformation and the client call inside the [try] of a
    handler, before the result is wrapped. *)
Definition client_call (pulse : NeatPulseClient) (call : ToolCall) : M value :=
  match call with
  | list_devices regionId locationId => listEndpoints pulse regionId locationId
  | get_device id => getEndpoint pulse id
  | get_device_settings id => getEndpointSettings pulse id
  | apply_device_config id config =>
      parsed <- JSON_parse_M config ;; applyEndpointConfig pulse id parsed
  | reboot_device id => rebootEndpoint pulse id
  | delete_device id => deleteEndpoint pulse id
  | get_device_sensors id => getEndpointSensorData pulse id
  | get_all_device_sensors regionId locationId =>
      getBulkSensorData pulse regionId locationId
  | get_room_sensors id => getRoomSensorData pulse id
  | get_all_room_sensors => getBulkRoomSensorData pulse
  | list_rooms => listRooms pulse
  | get_room id => getRoom pulse id
  | create_room name locationId =>
      createRoom pulse
        (JObj (object_of [(lit "name", Some (JStr name));
                          (lit "locationId", option_map JNum locationId)]))
  | update_room id name locationId =>
      updateRoom pulse id
        (JObj (object_of [(lit "name", option_map JStr name);
                          (lit "locationId", option_map JNum locationId)]))
  | delete_room id => deleteRoom pulse id
  | regenerate_room_dec id => regenerateRoomDec pulse id
  | list_locations => listLocations pulse
  | create_location name regionId =>
      createLocation pulse
        (JObj (object_of [(lit "name", Some (JStr name));
                          (lit "regionId", option_map JNum regionId)]))
  | update_location id name regionId =>
      updateLocation pulse id
        (JObj (object_of [(lit "name", option_map JStr name);
                          (lit "regionId", option_map JNum regionId)]))
  | delete_location id => deleteLocation pulse id
  | list_regions => listRegions pulse
  | create_region name =>
      createRegion pulse (JObj (object_of [(lit "name", Some (JStr name))]))
  | update_region id name =>
      updateRegion pulse id (JObj (object_of [(lit "name", Some (JStr name))]))
  | delete_region id => deleteRegion pulse id
  | list_users => listUsers pulse
  | get_user id => getUser pulse id
  | create_user email role regionIds =>
      createUser pulse
        (JObj (object_of [(lit "email", Some (JStr email));
                          (lit "role", option_map role_value role);
                          (lit "regionIds", option_map numbers_value regionIds)]))
  | update_user id role regionIds =>
      updateUser pulse id
        (JObj (object_of [(lit "role", option_map role_value role);
                          (lit "regionIds", option_map numbers_value regionIds)]))
  | delete_user id => deleteUser pulse id
  | list_profiles => listProfiles pulse
  | get_audit_logs from to pageToken pageSize =>
      getAuditLogs pulse from to pageToken pageSize
  | generate_bug_report ids uploadInCallLogs =>
      generateBugReport pulse ids uploadInCallLogs
  | list_room_notes roomId => listRoomNotes pulse roomId
  | get_room_note roomId noteId => getRoomNote pulse roomId noteId
  | create_room_note roomId content =>
      parsed <- JSON_parse_M content ;; createRoomNote pulse roomId parsed
  | delete_room_note roomId noteId => deleteRoomNote pulse roomId noteId
  | list_all_room_notes => listAllRoomNotes pulse
  end.

(** ** The registered names *)

(** The name each callback is registered under: the first argument of its
    [server.tool] call. *)
Definition tool_name (call : ToolCall) : jsstring :=
  match call with
  | list_devices _ _ => lit "list_devices"
  | get_device _ => lit "get_device"
  | get_device_settings _ => lit "get_device_settings"
  | apply_device_config _ _ => lit "apply_device_config"
  | reboot_device _ => lit "reboot_device"
  | delete_device _ => lit "delete_device"
  | get_device_sensors _ => lit "get_device_sensors"
  | get_all_device_sensors _ _ => lit "get_all_device_sensors"
  | get_room_sensors _ => lit "get_room_sensors"
  | get_all_room_sensors => lit "get_all_room_sensors"
  | list_rooms => lit "list_rooms"
  | get_room _ => lit "get_room"
  | create_room _ _ => lit "create_room"
  | update_room _ _ _ => lit "update_room"
  | delete_room _ => lit "delete_room"
  | regenerate_room_dec _ => lit "regenerate_room_dec"
  | list_locations => lit "list_locations"
  | create_location _ _ => lit "create_location"
  | update_location _ _ _ => lit "update_location"
  | delete_location _ => lit "delete_location"
  | list_regions => lit "list_regions"
  | create_region _ => lit "create_region"
  | update_region _ _ => lit "update_region"
  | delete_region _ => lit "delete_region"
  | list_users => lit "list_users"
  | get_user _ => lit "get_user"
  | create_user _ _ _ => lit "create_user"
  | update_user _ _ _ => lit "update_user"
  | delete_user _ => lit "delete_user"
  | list_profiles => lit "list_profiles"
  | get_audit_logs _ _ _ _ => lit "get_audit_logs"
  | generate_bug_report _ _ => lit "generate_bug_report"
  | list_room_notes _ => lit "list_room_notes"
  | get_room_note _ _ => lit "get_room_note"
  | create_room_note _ _ => lit "create_room_note"
  | delete_room_note _ _ => lit "delete_room_note"
  | list_all_room_notes => lit "list_all_room_notes"
  end.

(** The names in the order of registration. *)
Definition registered_names : list jsstring :=
  map lit
    [ "list_devices"; "get_device"; "get_device_settings"; "apply_device_config";
      "reboot_device"; "delete_device"; "get_device_sensors";
      "get_all_device_sensors"; "get_room_sensors"; "get_all_room_sensors";
      "list_rooms"; "get_room"; "create_room"; "update_room"; "delete_room";
      "regenerate_room_dec"; "list_locations"; "create_location";
      "update_location"; "delete_location"; "list_regions"; "create_region";
      "update_region"; "delete_region"; "list_users"; "get_user"; "create_user";
      "update_user"; "delete_user"; "list_profiles"; "get_audit_logs";
      "generate_bug_report"; "list_room_notes"; "get_room_note";
      "create_room_note"; "delete_room_note"; "list_all_room_notes" ]%string.

(* ================================================================== *)
(** * Vocabulary of the statements and proofs *)

(** ** The specification's words *)

(** The text a response body reads as, the empty string when the read
    fails: [res.text().catch(() => "")]. *)
Definition text_or_empty (body : Result jsstring) : jsstring :=
  match body with
  | Return t => t
  | Throw _ => []
  end.

(** The decoding of a successful response in the words of the
    specification: keyed on the content type, JSON is parsed and anything
    else is returned as text; a body that does not parse is an error. *)
Definition decode_response (env : Env) (ct : option jsstring)
  (body : Result jsstring) : Result value :=
  match body with
  | Throw e => Throw e
  | Return t =>
      if includes (match ct with Some c => c | None => [] end)
                  (lit "application/json")
      then match JSON_parse t with
           | Some v => Return v
           | None => Throw (SyntaxError (syntax_message env t))
           end
      else Return (JStr t)
  end.

(** The three headers in the words of the specification. *)
Definition three_headers (key : jsstring) : list (jsstring * jsstring) :=
  [ (lit "Authorization", lit "Bearer " ++ key);
    (lit "Content-Type", lit "application/json");
    (lit "Accept", lit "application/json") ].

(** The query string in the words of the specification: the parameters
    that were supplied, each as [key=value], joined by [&]. *)
Definition supplied (params : list (jsstring * option jsstring))
  : list (jsstring * jsstring) :=
  flat_map (fun kv => match snd kv with
                      | Some v => [(fst kv, v)]
                      | None => []
                      end) params.

Definition spec_query_string (params : list (jsstring * option jsstring))
  : jsstring :=
  join (lit "&")
       (map (fun kv => fst kv ++ lit "=" ++ urlencode (snd kv)) (supplied params)).

(** The text of the single content item of an envelope. *)
Definition envelope_text (e : ToolEnvelope) : jsstring :=
  match content e with
  | [c] => text c
  | _ => []
  end.

(** The numbers among the arguments of a call are well formed, as they
    are when the transport has read them with [JSON.parse]. *)
Definition wf_call (call : ToolCall) : bool :=
  let wf_opt := fun x : option number =>
    match x with Some n => wf_number n | None => true end in
  let wf_list := fun x : option (list number) =>
    match x with Some l => forallb wf_number l | None => true end in
  match call with
  | create_room _ locationId | update_room _ _ locationId => wf_opt locationId
  | create_location _ regionId | update_location _ _ regionId => wf_opt regionId
  | create_user _ _ regionIds | update_user _ _ regionIds => wf_list regionIds
  | _ => true
  end.

(** ** Concrete runs *)

(** A literal in which an apostrophe stands for a double quote. *)
Definition quoted (s : string) : jsstring :=
  map (fun c => if (c =? 39)%N then 34%N else c) (lit s).

Definition example_client : NeatPulseClient :=
  {| this_apiKey := lit "KEY"; this_orgId := lit "org1" |}.

(** A network that answers every request with the same response. *)
Definition answering (code : Z) (ct : option jsstring) (body : jsstring) : Env :=
  {| remote := fun _ _ =>
       Return {| status := code; content_type := ct; body_text := Return body |};
     syntax_message := fun _ => lit "Unexpected token in JSON" |}.

(** ** Digits and number tokens *)

(** A decimal digit. *)
Definition is_dec (d : Z) : Prop := 0 <= d <= 9.

(** What follows a run of digits does not extend it. *)
Definition no_digit_head (s : jsstring) : Prop :=
  match s with
  | [] => True
  | c :: _ => is_digit c = false
  end.

(** The head of a digit list is not zero. *)
Definition leading_nonzero (ds : list Z) : Prop :=
  match ds with
  | d :: _ => d <> 0
  | [] => False
  end.

(** What follows a number token does not extend it. *)
Definition number_stop (s : jsstring) : Prop :=
  match s with
  | [] => True
  | c :: _ => is_digit c = false /\ c <> 46%N /\ c <> 101%N /\ c <> 69%N
  end.

(** The part of [parse_number] after the sign. *)
Definition unsigned_number (neg : bool) (s0 : jsstring) : option (number * jsstring) :=
  match parse_int s0 with
  | None => None
  | Some (ip, s1) =>
      match parse_fraction s1 with
      | None => None
      | Some (fp, s2) =>
          match parse_exponent s2 with
          | None => None
          | Some (x, s3) =>
              Some (to_number neg (ip ++ fp) (x - Z.of_nat (List.length fp)), s3)
          end
      end
  end.

(** The number [JSON.parse] reads from the text of a finite number. *)
Definition reread (x : number) : number :=
  match x with
  | Zero _ => Zero false
  | _ => x
  end.

(** ** String tokens *)

(** One more character in front of a parsed string. *)
Definition push (c : code_unit) (r : option (jsstring * jsstring))
  : option (jsstring * jsstring) :=
  match r with
  | Some (str, rest) => Some (c :: str, rest)
  | None => None
  end.

(** ** The shape of a serialisation *)

Definition all_ws (w : jsstring) : Prop := Forall (fun c => is_ws c = true) w.

(** The line break and indentation before an item, when there is a gap. *)
Definition newline (gap indent : jsstring) : jsstring :=
  if is_empty gap then [] else 10%N :: indent.

(** The space after the colon of a member, when there is a gap. *)
Definition after_colon (gap : jsstring) : jsstring :=
  if is_empty gap then [] else lit " ".

Definition member_text (gap indent : jsstring) (kv : jsstring * value) : jsstring :=
  QuoteJSONString (fst kv) ++ lit ":" ++ after_colon gap ++
  serialize gap indent (snd kv).

(** A serialised value starts with a character that is neither white
    space nor a closing bracket. *)
Definition opens_value (s : jsstring) : Prop :=
  match s with
  | c :: _ => is_ws c = false /\ c <> 93%N /\ c <> 125%N
  | [] => False
  end.

(** The fuel the parser needs to read a value back. *)
Fixpoint need (v : value) : nat :=
  match v with
  | JArr l => S (fold_right (fun x acc => S (need x + acc)) O l)
  | JObj o => S (fold_right (fun kv acc => S (need (snd kv) + acc)) O o)
  | _ => 1
  end.

Definition need_elements (l : list value) : nat :=
  fold_right (fun x acc => S (need x + acc)) O l.

Definition need_members (o : list (jsstring * value)) : nat :=
  fold_right (fun kv acc => S (need (snd kv) + acc)) O o.

(** Parsing the serialisation of [v] with enough fuel yields [jsonify v]. *)
Definition reads_back (v : value) : Prop :=
  wf_value v = true ->
  forall gap indent fuel rest,
    all_ws gap -> all_ws indent -> (need v <= fuel)%nat -> number_stop rest ->
    parse_value fuel (serialize gap indent v ++ rest) = Some (jsonify v, rest).

Definition jsonify_members (o : list (jsstring * value)) : list (jsstring * value) :=
  map (fun kv => (fst kv, jsonify (snd kv))) o.

(** The test that a later key may follow the earlier key [k0]. *)
Definition may_follow (k0 : jsstring) (kv : jsstring * value) : bool :=
  negb (jsstring_eqb (fst kv) k0) && negb (key_before (fst kv) k0).

(** ** The requests of a call *)

(** The requests a handler sends, read off a run against a network that
    answers 200 with an empty body. *)
Definition sent_requests (pulse : NeatPulseClient) (call : ToolCall)
  : list Request :=
  snd (handler pulse call
         {| remote := fun _ _ =>
              Return {| status := 200; content_type := None;
                        body_text := Return [] |};
            syntax_message := fun _ => [] |} []).

(** The methods the client uses and the requests that carry a payload. *)
Definition well_shaped (method path : jsstring) (body : option value) : Prop :=
  starts_with (lit "/") path = true /\
  ((method = lit "GET" /\ body = None) \/
   (method = lit "DELETE" /\ body = None) \/
   method = lit "POST" \/
   (method = lit "PUT" /\ body <> None)).

(** The characters that delimit a query string and its parameters: [&],
    [=], [?], [#], [/] and the space. *)
Definition query_separator (c : code_unit) : bool :=
  ((c =? 38) || (c =? 61) || (c =? 63) || (c =? 35) || (c =? 47) || (c =? 32))%N.

(** The keys of an object. *)
Definition keys (v : value) : list jsstring :=
  match v with
  | JObj o => map fst o
  | _ => []
  end.

(** The names of the fields that are present. *)
Definition present (fields : list (jsstring * bool)) : list jsstring :=
  map fst (filter snd fields).

Definition is_some {A : Type} (x : option A) : bool :=
  match x with Some _ => true | None => false end.

(** A network on which every [fetch] rejects with the same error. *)
Definition rejecting (e : JsError) : Env :=
  {| remote := fun _ _ => Throw e;
     syntax_message := fun _ => lit "Unexpected token in JSON" |}.

(** A network whose responses have a body that cannot be read. *)
Definition unreadable (code : Z) (ct : option jsstring) (e : JsError) : Env :=
  {| remote := fun _ _ =>
       Return {| status := code; content_type := ct; body_text := Throw e |};
     syntax_message := fun _ => lit "Unexpected token in JSON" |}.



(** ** Tactics *)

(** Replace the literals of the goal by their code units. *)
Ltac eval_lit :=
  repeat match goal with
         | |- context [lit ?s] =>
             let v := eval vm_compute in (lit s) in change (lit s) with v
         end.

(** Linear arithmetic up to the spelling of the type of code units. *)
Ltac llia := unfold jsstring, code_unit in *; lia.

(* ================================================================== *)
(** * Facts about strings *)

Lemma starts_with_app (t s : jsstring) : starts_with t (t ++ s) = true.
Proof.
  induction t as [|a t IH]; simpl; [reflexivity|].
  rewrite N.eqb_refl. exact IH.
Qed.

Lemma includes_here (s t : jsstring) :
  starts_with t s = true -> includes s t = true.
Proof. destruct s; simpl; intros ->; reflexivity. Qed.

Lemma includes_app (a t b : jsstring) : includes (a ++ t ++ b) t = true.
Proof.
  induction a as [|x a IH]; simpl.
  - apply includes_here, starts_with_app.
  - rewrite IH. apply orb_true_r.
Qed.

Lemma includes_suffix (a t : jsstring) : includes (a ++ t) t = true.
Proof. rewrite <- (app_nil_r t) at 1. apply includes_app. Qed.

Lemma includes_nil_false (t : jsstring) : t <> [] -> includes [] t = false.
Proof. destruct t; [congruence | reflexivity]. Qed.

Lemma jsstring_eqb_eq (a b : jsstring) : jsstring_eqb a b = true <-> a = b.
Proof.
  revert b; induction a as [|x a IH]; destruct b as [|y b]; simpl;
    try (split; congruence).
  rewrite andb_true_iff, N.eqb_eq, IH. split.
  - intros [-> ->]; reflexivity.
  - intros H; injection H; auto.
Qed.

Lemma jsstring_eqb_refl (a : jsstring) : jsstring_eqb a a = true.
Proof. apply jsstring_eqb_eq; reflexivity. Qed.

Lemma jsstring_eqb_sym (a b : jsstring) : jsstring_eqb a b = jsstring_eqb b a.
Proof.
  destruct (jsstring_eqb a b) eqn:E1, (jsstring_eqb b a) eqn:E2; try reflexivity.
  - apply jsstring_eqb_eq in E1; subst. rewrite jsstring_eqb_refl in E2. discriminate.
  - apply jsstring_eqb_eq in E2; subst. rewrite jsstring_eqb_refl in E1. discriminate.
Qed.

(* ------------------------------------------------------------------ *)
(** ** Decimal digits *)

Lemma digit_char_is_digit (d : Z) : is_dec d -> is_digit (digit_char d) = true.
Proof. unfold is_dec, is_digit, digit_char. lia. Qed.

Lemma digit_val_char (d : Z) : is_dec d -> digit_val (digit_char d) = d.
Proof. unfold is_dec, digit_val, digit_char. lia. Qed.

Lemma digit_val_is_dec (c : code_unit) : is_digit c = true -> is_dec (digit_val c).
Proof. unfold is_dec, is_digit, digit_val. lia. Qed.

Lemma span_digits_chars (ds : list Z) (rest : jsstring) :
  Forall is_dec ds -> no_digit_head rest ->
  span_digits (digit_chars ds ++ rest) = (ds, rest).
Proof.
  intros Hds Hrest. induction Hds as [|d ds Hd _ IH]; simpl.
  - destruct rest as [|c rest]; simpl in *; [reflexivity|]. now rewrite Hrest.
  - rewrite digit_char_is_digit by assumption.
    fold (digit_chars ds). rewrite IH, digit_val_char by assumption. reflexivity.
Qed.

Lemma span_digits_stop (s : jsstring) :
  no_digit_head s -> span_digits s = ([], s).
Proof. destruct s as [|c s]; simpl; [reflexivity|]. now intros ->. Qed.

Lemma fold_digits_acc (ds : list Z) (a : Z) :
  fold_left (fun acc d => 10 * acc + d) ds a =
  a * 10 ^ Z.of_nat (List.length ds) + num_of_digits ds.
Proof.
  unfold num_of_digits. revert a.
  induction ds as [|d ds IH]; intros a.
  - simpl. lia.
  - cbn [fold_left List.length]. rewrite IH, (IH (10 * 0 + d)).
    rewrite Nat2Z.inj_succ, Z.pow_succ_r by lia. lia.
Qed.

Lemma num_of_digits_app (a b : list Z) :
  num_of_digits (a ++ b) =
  num_of_digits a * 10 ^ Z.of_nat (List.length b) + num_of_digits b.
Proof.
  unfold num_of_digits at 1. rewrite fold_left_app.
  rewrite fold_digits_acc. reflexivity.
Qed.

Lemma num_of_digits_cons (d : Z) (ds : list Z) :
  num_of_digits (d :: ds) = d * 10 ^ Z.of_nat (List.length ds) + num_of_digits ds.
Proof. apply (num_of_digits_app [d] ds). Qed.

Lemma num_of_digits_single (d : Z) : num_of_digits [d] = d.
Proof. unfold num_of_digits. cbn [fold_left]. lia. Qed.

Lemma num_of_digits_repeat0 (n : nat) : num_of_digits (repeat 0 n) = 0.
Proof.
  induction n as [|n IH]; [reflexivity|].
  cbn [repeat]. rewrite num_of_digits_cons, IH. lia.
Qed.

Lemma num_of_digits_nonneg (ds : list Z) :
  Forall is_dec ds -> 0 <= num_of_digits ds.
Proof.
  induction ds as [|d ds IH] using rev_ind; intros H.
  - cbv. discriminate.
  - apply Forall_app in H as [H1 H2]. inversion H2; subst.
    rewrite num_of_digits_app. cbn [List.length Z.of_nat].
    specialize (IH H1). rewrite num_of_digits_single. unfold is_dec in *. lia.
Qed.

Lemma digit_chars_app (a b : list Z) :
  digit_chars (a ++ b) = digit_chars a ++ digit_chars b.
Proof. apply map_app. Qed.

Lemma zeros_digit_chars (n : Z) : zeros n = digit_chars (repeat 0 (Z.to_nat n)).
Proof.
  unfold zeros, digit_chars. induction (Z.to_nat n) as [|k IH]; simpl;
    [reflexivity | rewrite IH; reflexivity].
Qed.

Lemma Forall_is_dec_repeat0 (n : nat) : Forall is_dec (repeat 0 n).
Proof. induction n; simpl; constructor; auto. unfold is_dec; lia. Qed.

Lemma digits_aux_app (fuel : nat) (n : Z) (acc : list Z) :
  digits_aux fuel n acc = digits_aux fuel n [] ++ acc.
Proof.
  revert n acc. induction fuel as [|fuel IH]; intros n acc; simpl.
  - reflexivity.
  - destruct (n <? 10); [reflexivity|].
    rewrite IH, (IH _ [_]), <- app_assoc. reflexivity.
Qed.

Lemma leading_nonzero_app (a b : list Z) :
  leading_nonzero a -> leading_nonzero (a ++ b).
Proof. destruct a; simpl; [intros [] | auto]. Qed.

Lemma digits_aux_spec (fuel : nat) (n : Z) :
  0 <= n < 10 * 2 ^ Z.of_nat fuel ->
  num_of_digits (digits_aux fuel n []) = n /\
  Forall is_dec (digits_aux fuel n []) /\
  (0 < n -> leading_nonzero (digits_aux fuel n [])).
Proof.
  revert n. induction fuel as [|fuel IH]; intros n Hn.
  - change (Z.of_nat 0) with 0 in Hn. rewrite Z.pow_0_r in Hn.
    cbn [digits_aux]. split; [|split].
    + apply num_of_digits_single.
    + constructor; [unfold is_dec; lia | constructor].
    + simpl. lia.
  - cbn [digits_aux]. destruct (Z.ltb_spec n 10) as [Hlt|Hge].
    + split; [|split].
      * apply num_of_digits_single.
      * constructor; [unfold is_dec; lia | constructor].
      * simpl. lia.
    + rewrite digits_aux_app.
      assert (Hq : 0 <= n / 10 < 10 * 2 ^ Z.of_nat fuel).
      { rewrite Nat2Z.inj_succ, Z.pow_succ_r in Hn by lia.
        split; [apply Z.div_pos; lia|].
        apply Z.div_lt_upper_bound; lia. }
      destruct (IH _ Hq) as (H1 & H2 & H3).
      pose proof (Z.mod_pos_bound n 10 ltac:(lia)) as Hm.
      split; [|split].
      * rewrite num_of_digits_app, H1. cbn [List.length Z.of_nat].
        rewrite num_of_digits_single.
        pose proof (Z.div_mod n 10 ltac:(lia)). lia.
      * apply Forall_app; split; [assumption|].
        constructor; [unfold is_dec; lia | constructor].
      * intros _. apply leading_nonzero_app, H3.
        apply Z.div_str_pos. lia.
Qed.

Lemma digits_fuel (n : Z) : 0 <= n -> n < 10 * 2 ^ Z.of_nat (Z.to_nat (Z.log2 n)).
Proof.
  intros Hn. rewrite Z2Nat.id by apply Z.log2_nonneg.
  destruct (Z.eq_dec n 0) as [->|Hnz]; [cbn; lia|].
  pose proof (Z.log2_spec n ltac:(lia)) as [_ H].
  rewrite Z.pow_succ_r in H by apply Z.log2_nonneg. lia.
Qed.

Lemma num_of_digits_digits (n : Z) : 0 <= n -> num_of_digits (digits n) = n.
Proof. intros H. apply digits_aux_spec. split; [lia | now apply digits_fuel]. Qed.

Lemma digits_is_dec (n : Z) : 0 <= n -> Forall is_dec (digits n).
Proof. intros H. apply digits_aux_spec. split; [lia | now apply digits_fuel]. Qed.

Lemma digits_leading (n : Z) : 0 < n -> leading_nonzero (digits n).
Proof.
  intros H. apply digits_aux_spec; [|assumption].
  split; [lia | apply digits_fuel; lia].
Qed.

Lemma digits_nonempty (n : Z) : digits n <> [].
Proof.
  unfold digits. generalize (Z.to_nat (Z.log2 n)) as fuel. intros fuel.
  destruct fuel; simpl; [discriminate|].
  destruct (n <? 10); [discriminate|].
  rewrite digits_aux_app. intros H. apply app_eq_nil in H as [_ H]. discriminate.
Qed.

(* ================================================================== *)
(** * Numbers: reading back what [Number::toString] prints *)

Lemma strip10_pow (t fuel : nat) (m e : Z) :
  0 < m -> m mod 10 <> 0 -> (t <= fuel)%nat ->
  strip10 fuel (m * 10 ^ Z.of_nat t) e = (m, e + Z.of_nat t).
Proof.
  intros Hm Hmod. revert fuel e.
  induction t as [|t IH]; intros fuel e Hle.
  - change (Z.of_nat 0) with 0. rewrite Z.pow_0_r, Z.mul_1_r, Z.add_0_r.
    destruct fuel; simpl; [reflexivity|].
    destruct (Z.eqb_spec (m mod 10) 0); [contradiction | reflexivity].
  - destruct fuel as [|fuel]; [lia|].
    rewrite Nat2Z.inj_succ, Z.pow_succ_r by lia.
    cbn [strip10].
    replace (m * (10 * 10 ^ Z.of_nat t)) with (m * 10 ^ Z.of_nat t * 10) by lia.
    rewrite Z.mod_mul, Z.div_mul by lia.
    assert (Hpos : 0 < m * 10 ^ Z.of_nat t * 10).
    { assert (0 < 10 ^ Z.of_nat t) by (apply Z.pow_pos_nonneg; lia). nia. }
    destruct (Z.eqb_spec (m * 10 ^ Z.of_nat t * 10) 0); [lia|].
    cbn [Z.eqb andb negb]. rewrite IH by lia. f_equal. lia.
Qed.

Lemma strip10_spec (fuel : nat) (m e : Z) :
  0 < m < 10 ^ Z.of_nat fuel ->
  0 < fst (strip10 fuel m e) /\ fst (strip10 fuel m e) mod 10 <> 0.
Proof.
  revert m e. induction fuel as [|fuel IH]; intros m e Hm.
  - change (Z.of_nat 0) with 0 in Hm. rewrite Z.pow_0_r in Hm. lia.
  - cbn [strip10]. destruct (Z.eqb_spec (m mod 10) 0) as [Hmod|Hmod].
    + destruct (Z.eqb_spec m 0); [lia|]. cbn [andb negb].
      apply IH.
      rewrite Nat2Z.inj_succ, Z.pow_succ_r in Hm by lia.
      pose proof (Z.div_mod m 10 ltac:(lia)). 
      split; [lia|]. apply Z.div_lt_upper_bound; lia.
    + cbn [andb fst]. split; [lia | assumption].
Qed.

Lemma wf_number_finite (neg : bool) (m e : Z) :
  wf_number (Finite neg m e) = true ->
  0 < m /\ m mod 10 <> 0 /\ overflows m e = false /\ underflows m e = false.
Proof.
  cbn [wf_number]. rewrite !andb_true_iff, !negb_true_iff.
  intros [[[H1 H2] H3] H4]. repeat split; try assumption; lia.
Qed.

Lemma to_number_finite (neg : bool) (ds : list Z) (m e e' : Z) (t : nat) :
  num_of_digits ds = m * 10 ^ Z.of_nat t -> (t <= List.length ds)%nat ->
  e' = e + Z.of_nat t ->
  wf_number (Finite neg m e') = true ->
  to_number neg ds e = Finite neg m e'.
Proof.
  intros Hv Ht -> Hwf.
  destruct (wf_number_finite _ _ _ Hwf) as (Hm & Hmod & Hov & Hun).
  unfold to_number.
  rewrite Hv.
  assert (0 < 10 ^ Z.of_nat t) by (apply Z.pow_pos_nonneg; lia).
  destruct (Z.eqb_spec (m * 10 ^ Z.of_nat t) 0); [nia|].
  rewrite strip10_pow by assumption.
  rewrite Hov, Hun. reflexivity.
Qed.

Lemma number_stop_no_digit (s : jsstring) : number_stop s -> no_digit_head s.
Proof. destruct s; simpl; tauto. Qed.

Lemma parse_int_digits (ds : list Z) (more : jsstring) :
  Forall is_dec ds -> leading_nonzero ds -> no_digit_head more ->
  parse_int (digit_chars ds ++ more) = Some (ds, more).
Proof.
  intros Hds Hlead Hmore. destruct ds as [|d ds]; [contradiction|].
  inversion Hds as [|? ? Hd Hds']; subst. simpl in Hlead.
  cbn [digit_chars map app parse_int].
  assert ((digit_char d =? 48)%N = false) as ->
    by (unfold digit_char, is_dec in *; lia).
  rewrite digit_char_is_digit by assumption.
  fold (digit_chars ds). rewrite span_digits_chars by assumption.
  rewrite digit_val_char by assumption. reflexivity.
Qed.

Lemma parse_fraction_none (s : jsstring) :
  number_stop s -> parse_fraction s = Some ([], s).
Proof.
  destruct s as [|c s]; simpl; [reflexivity|].
  intros (_ & H & _). destruct (N.eqb_spec c 46); [contradiction | reflexivity].
Qed.

Lemma parse_fraction_digits (ds : list Z) (more : jsstring) :
  Forall is_dec ds -> ds <> [] -> no_digit_head more ->
  parse_fraction (46%N :: digit_chars ds ++ more) = Some (ds, more).
Proof.
  intros Hds Hne Hmore. cbn [parse_fraction]. rewrite N.eqb_refl.
  rewrite span_digits_chars by assumption.
  destruct ds; [contradiction | reflexivity].
Qed.

Lemma parse_fraction_skip (s : jsstring) :
  parse_fraction (101%N :: s) = Some ([], 101%N :: s).
Proof. reflexivity. Qed.

Lemma parse_exponent_none (s : jsstring) :
  number_stop s -> parse_exponent s = Some (0, s).
Proof.
  destruct s as [|c s]; simpl; [reflexivity|].
  intros (_ & _ & H1 & H2).
  destruct (N.eqb_spec c 101); [contradiction|].
  destruct (N.eqb_spec c 69); [contradiction | reflexivity].
Qed.

Lemma parse_exponent_digits (x : Z) (more : jsstring) :
  no_digit_head more ->
  parse_exponent (lit "e" ++ (if x <? 0 then lit "-" else lit "+") ++
                  digit_chars (digits (Z.abs x)) ++ more) = Some (x, more).
Proof.
  intros Hmore.
  assert (Hd := digits_is_dec (Z.abs x) ltac:(lia)).
  assert (Hn := num_of_digits_digits (Z.abs x) ltac:(lia)).
  assert (Hne := digits_nonempty (Z.abs x)).
  destruct (Z.ltb_spec x 0); eval_lit; cbn [app];
    cbn [parse_exponent N.eqb Pos.eqb orb];
    rewrite span_digits_chars by assumption;
    destruct (digits (Z.abs x)) eqn:E; try contradiction;
    rewrite Hn; do 2 f_equal; lia.
Qed.

Lemma parse_number_minus (s : jsstring) :
  parse_number (45%N :: s) = unsigned_number true s.
Proof. reflexivity. Qed.

Lemma parse_number_plain (c : code_unit) (s : jsstring) :
  c <> 45%N -> parse_number (c :: s) = unsigned_number false (c :: s).
Proof.
  intros H. unfold parse_number.
  destruct (N.eqb_spec c 45); [contradiction | reflexivity].
Qed.

Lemma parse_number_digit (neg : bool) (ds : list Z) (s : jsstring) :
  Forall is_dec ds -> ds <> [] ->
  parse_number ((if neg then lit "-" else []) ++ digit_chars ds ++ s) =
  unsigned_number neg (digit_chars ds ++ s).
Proof.
  intros Hds Hne. destruct neg; [apply parse_number_minus|].
  destruct ds as [|d ds]; [contradiction|]. inversion Hds; subst.
  cbn [app digit_chars map]. apply parse_number_plain.
  unfold digit_char, is_dec in *. lia.
Qed.

Lemma unsigned_integer (neg : bool) (ds : list Z) (rest : jsstring) :
  Forall is_dec ds -> leading_nonzero ds -> number_stop rest ->
  unsigned_number neg (digit_chars ds ++ rest) = Some (to_number neg ds 0, rest).
Proof.
  intros Hds Hlead Hrest. unfold unsigned_number.
  rewrite parse_int_digits by auto using number_stop_no_digit.
  rewrite parse_fraction_none, parse_exponent_none by assumption.
  rewrite app_nil_r. reflexivity.
Qed.

Lemma unsigned_decimal (neg : bool) (d1 d2 : list Z) (rest : jsstring) :
  Forall is_dec d1 -> leading_nonzero d1 -> Forall is_dec d2 -> d2 <> [] ->
  number_stop rest ->
  unsigned_number neg (digit_chars d1 ++ lit "." ++ digit_chars d2 ++ rest) =
  Some (to_number neg (d1 ++ d2) (- Z.of_nat (List.length d2)), rest).
Proof.
  intros H1 Hlead H2 Hne Hrest. unfold unsigned_number.
  rewrite parse_int_digits by (auto; reflexivity).
  change (lit "." ++ digit_chars d2 ++ rest) with (46%N :: digit_chars d2 ++ rest).
  rewrite parse_fraction_digits by auto using number_stop_no_digit.
  rewrite parse_exponent_none by assumption. reflexivity.
Qed.

Lemma unsigned_zero_point (neg : bool) (d2 : list Z) (rest : jsstring) :
  Forall is_dec d2 -> d2 <> [] -> number_stop rest ->
  unsigned_number neg (lit "0." ++ digit_chars d2 ++ rest) =
  Some (to_number neg (0 :: d2) (- Z.of_nat (List.length d2)), rest).
Proof.
  intros H2 Hne Hrest. unfold unsigned_number.
  change (lit "0." ++ digit_chars d2 ++ rest)
    with (48%N :: 46%N :: digit_chars d2 ++ rest).
  cbn [parse_int N.eqb Pos.eqb].
  rewrite parse_fraction_digits by auto using number_stop_no_digit.
  rewrite parse_exponent_none by assumption. reflexivity.
Qed.

Lemma unsigned_exponential (neg : bool) (d : Z) (d2 : list Z) (x : Z)
  (rest : jsstring) :
  is_dec d -> d <> 0 -> Forall is_dec d2 -> number_stop rest ->
  unsigned_number neg
    ([digit_char d] ++ (if is_empty d2 then [] else lit "." ++ digit_chars d2) ++
     lit "e" ++ (if x <? 0 then lit "-" else lit "+") ++
     digit_chars (digits (Z.abs x)) ++ rest) =
  Some (to_number neg (d :: d2) (x - Z.of_nat (List.length d2)), rest).
Proof.
  intros Hd Hnz H2 Hrest. unfold unsigned_number.
  change [digit_char d] with (digit_chars [d]).
  rewrite parse_int_digits.
  2: { constructor; [assumption | constructor]. }
  2: { exact Hnz. }
  2: { destruct d2; reflexivity. }
  destruct d2 as [|d' d2].
  - cbn [is_empty app]. 
    change (lit "e" ++ ?s) with (101%N :: s).
    rewrite parse_fraction_skip.
    change (101%N :: ?s) with (lit "e" ++ s).
    rewrite parse_exponent_digits by auto using number_stop_no_digit.
    reflexivity.
  - cbn [is_empty]. 
    change (lit "." ++ digit_chars (d' :: d2)) with (46%N :: digit_chars (d' :: d2)).
    rewrite <- app_comm_cons.
    rewrite parse_fraction_digits; [|assumption|discriminate|reflexivity].
    rewrite parse_exponent_digits by auto using number_stop_no_digit.
    reflexivity.
Qed.

Lemma firstn_skipn_is_dec (n : nat) (ds : list Z) :
  Forall is_dec ds -> Forall is_dec (firstn n ds) /\ Forall is_dec (skipn n ds).
Proof.
  intros H. rewrite <- (firstn_skipn n ds) in H. now apply Forall_app in H.
Qed.

Lemma leading_nonzero_firstn (n : nat) (ds : list Z) :
  (0 < n)%nat -> leading_nonzero ds -> leading_nonzero (firstn n ds).
Proof. destruct n; [lia|]. destruct ds; simpl; auto. Qed.

Theorem parse_number_toString (x : number) (rest : jsstring) :
  wf_number x = true -> is_finite x = true -> number_stop rest ->
  parse_number (Number_toString x ++ rest) = Some (reread x, rest).
Proof.
  intros Hwf Hfin Hrest. destruct x as [| |neg|neg m e]; try discriminate.
  - (* zero *)
    change (Number_toString (Zero neg) ++ rest)
      with ((if false then lit "-" else []) ++ digit_chars [0] ++ rest).
    rewrite (parse_number_digit false [0]);
      [|constructor; [unfold is_dec; lia | constructor]|discriminate].
    unfold unsigned_number.
    cbn [digit_chars map app digit_char Z.add Z.to_N parse_int N.eqb Pos.eqb].
    rewrite parse_fraction_none, parse_exponent_none by assumption.
    reflexivity.
  - (* finite, not zero *)
    destruct (wf_number_finite _ _ _ Hwf) as (Hm & Hmod & Hov & Hun).
    cbn [Number_toString reread].
    pose proof (digits_is_dec m ltac:(lia)) as Hdec.
    pose proof (digits_leading m Hm) as Hlead.
    pose proof (num_of_digits_digits m ltac:(lia)) as Hnum.
    pose proof (digits_nonempty m) as Hne.
    set (ds := digits m) in *.
    set (k := Z.of_nat (List.length ds)).
    assert (Hk : 0 < k)
      by (destruct ds; [contradiction | subst k; cbn [List.length]; lia]).
    cbv zeta. rewrite <- app_assoc.
    destruct ((-5 <=? k + e) && (k + e <=? 21)) eqn:Hrange.
    + destruct (Z.leb_spec k (k + e)) as [Hle|Hgt].
      * (* digits followed by zeros *)
        rewrite zeros_digit_chars, <- digit_chars_app.
        rewrite parse_number_digit.
        2: { apply Forall_app; split; [assumption | apply Forall_is_dec_repeat0]. }
        2: { intros H; apply app_eq_nil in H as [H _]; contradiction. }
        rewrite unsigned_integer; try assumption.
        2: { apply Forall_app; split; [assumption | apply Forall_is_dec_repeat0]. }
        2: { now apply leading_nonzero_app. }
        f_equal. f_equal.
        apply (to_number_finite _ _ _ _ _ (Z.to_nat e)).
        -- rewrite num_of_digits_app, num_of_digits_repeat0, Hnum, repeat_length.
           replace (k + e - k) with e by lia. lia.
        -- rewrite length_app, repeat_length. lia.
        -- lia.
        -- exact Hwf.
      * destruct (Z.ltb_spec 0 (k + e)) as [Hpos|Hnpos].
        -- (* digits around a decimal point *)
           destruct (firstn_skipn_is_dec (Z.to_nat (k + e)) ds Hdec) as [Hf Hs].
           rewrite <- !app_assoc.
           rewrite parse_number_digit; [|assumption|].
           2: { destruct ds; [contradiction|].
                destruct (Z.to_nat (k + e)) eqn:E; [lia | discriminate]. }
           rewrite unsigned_decimal; try assumption.
           2: { apply leading_nonzero_firstn; [lia | assumption]. }
           2: { intros H. apply (f_equal (@List.length Z)) in H.
                rewrite length_skipn in H. cbn in H. lia. }
           rewrite firstn_skipn. f_equal. f_equal.
           rewrite length_skipn.
           apply (to_number_finite _ _ _ _ _ 0%nat).
           ++ rewrite Hnum. cbn. lia.
           ++ lia.
           ++ lia.
           ++ exact Hwf.
        -- (* zero, a decimal point, zeros and the digits *)
           rewrite zeros_digit_chars, <- !app_assoc.
           rewrite (app_assoc (digit_chars _) (digit_chars ds)), <- digit_chars_app.
           assert (Hzp :
             unsigned_number neg
               (lit "0." ++ digit_chars (repeat 0 (Z.to_nat (- (k + e))) ++ ds) ++ rest)
             = Some (Finite neg m e, rest)).
           { rewrite unsigned_zero_point; try assumption.
             2: { apply Forall_app; split; [apply Forall_is_dec_repeat0 | assumption]. }
             2: { intros H; apply app_eq_nil in H as [_ H]; contradiction. }
             f_equal. f_equal. rewrite length_app, repeat_length.
             apply (to_number_finite _ _ _ _ _ 0%nat).
             - rewrite num_of_digits_cons, num_of_digits_app,
                 num_of_digits_repeat0, Hnum. cbn. lia.
             - cbn. lia.
             - lia.
             - exact Hwf. }
           destruct neg.
           ++ change (lit "-" ++ lit "0." ++ ?s) with (45%N :: lit "0." ++ s).
              rewrite parse_number_minus. exact Hzp.
           ++ change ([] ++ lit "0." ++ ?s) with (48%N :: 46%N :: s).
              rewrite parse_number_plain by discriminate. exact Hzp.
    + (* exponential notation *)
      destruct ds as [|d d2] eqn:Eds; [contradiction|].
      pose proof (Forall_inv Hdec) as Hd. pose proof (Forall_inv_tail Hdec) as Hd2.
      simpl in Hlead.
      assert (Hex :
        unsigned_number neg
          ([digit_char d] ++
           (if is_empty d2 then [] else lit "." ++ digit_chars d2) ++
           lit "e" ++ (if k + e - 1 <? 0 then lit "-" else lit "+") ++
           digit_chars (digits (Z.abs (k + e - 1))) ++ rest) =
        Some (Finite neg m e, rest)).
      { rewrite unsigned_exponential; try assumption.
        f_equal. f_equal.
        apply (to_number_finite _ _ _ _ _ 0%nat).
        - rewrite Hnum. cbn. lia.
        - cbn. lia.
        - subst k. cbn [List.length]. lia.
        - exact Hwf. }
      rewrite <- Hex.
      change [digit_char d] with (digit_chars [d]).
      rewrite <- (parse_number_digit neg [d]);
        [|constructor; [assumption | constructor]|discriminate].
      destruct d2; cbn [is_empty]; rewrite <- ?app_assoc; reflexivity.
Qed.

(* ================================================================== *)
(** * Strings: reading back what [QuoteJSONString] prints *)

Lemma hex_val_lower (d : N) : (d < 16)%N -> hex_val (hex_lower d) = Some d.
Proof.
  intros H. unfold hex_val, hex_lower, is_digit.
  destruct (N.ltb_spec d 10).
  - replace ((48 <=? 48 + d)%N && (48 + d <=? 57)%N) with true by lia.
    f_equal. lia.
  - replace ((48 <=? 87 + d)%N && (87 + d <=? 57)%N) with false by lia.
    replace ((97 <=? 87 + d)%N && (87 + d <=? 102)%N) with true by lia.
    f_equal. lia.
Qed.

Lemma hex4_digits (c : code_unit) :
  (c < 65536)%N ->
  hex4 (hex_lower (c / 4096)) (hex_lower ((c / 256) mod 16))
       (hex_lower ((c / 16) mod 16)) (hex_lower (c mod 16)) = Some c.
Proof.
  intros H. unfold hex4.
  assert (c / 4096 < 16)%N by (apply N.Div0.div_lt_upper_bound; lia).
  rewrite !hex_val_lower by (try assumption; apply N.mod_lt; lia).
  f_equal.
  pose proof (N.div_mod c 16 ltac:(lia)).
  pose proof (N.div_mod (c / 16) 16 ltac:(lia)).
  pose proof (N.div_mod (c / 256) 16 ltac:(lia)).
  assert (c / 256 = c / 16 / 16)%N by (rewrite N.Div0.div_div; reflexivity).
  assert (c / 4096 = c / 256 / 16)%N by (rewrite N.Div0.div_div; reflexivity).
  lia.
Qed.

Lemma parse_string_unicode_escape (c : code_unit) (s : jsstring) :
  (c < 65536)%N ->
  parse_string (unicode_escape c ++ s) = push c (parse_string s).
Proof.
  intros H. unfold unicode_escape. cbn [app parse_string N.eqb Pos.eqb].
  rewrite hex4_digits by assumption. reflexivity.
Qed.

Lemma parse_string_raw (c : code_unit) (s : jsstring) :
  c <> 34%N -> c <> 92%N -> (32 <= c)%N ->
  parse_string (c :: s) = push c (parse_string s).
Proof.
  intros H1 H2 H3. cbn [parse_string].
  destruct (N.eqb_spec c 34); [contradiction|].
  destruct (N.eqb_spec c 92); [contradiction|].
  destruct (N.ltb_spec c 32); [lia | reflexivity].
Qed.

Lemma parse_string_quote_unit (c : code_unit) (s : jsstring) :
  parse_string (quote_unit c ++ s) = push c (parse_string s).
Proof.
  unfold quote_unit.
  destruct (N.eqb_spec c 8); [subst; reflexivity|].
  destruct (N.eqb_spec c 9); [subst; reflexivity|].
  destruct (N.eqb_spec c 10); [subst; reflexivity|].
  destruct (N.eqb_spec c 12); [subst; reflexivity|].
  destruct (N.eqb_spec c 13); [subst; reflexivity|].
  destruct (N.eqb_spec c 34); [subst; reflexivity|].
  destruct (N.eqb_spec c 92); [subst; reflexivity|].
  destruct ((c <? 32)%N || is_surrogate c) eqn:E.
  - apply parse_string_unicode_escape. unfold is_surrogate in E. lia.
  - apply parse_string_raw; try assumption. lia.
Qed.

Lemma parse_string_quote_units (n : nat) (s rest : jsstring) :
  (List.length s <= n)%nat ->
  parse_string (quote_units s ++ 34%N :: rest) = Some (s, rest).
Proof.
  revert s. induction n as [|n IH]; intros s Hlen.
  - destruct s; [reflexivity | simpl in Hlen; lia].
  - destruct s as [|c t]; [reflexivity|]. cbn [List.length] in Hlen.
    cbn [quote_units].
    destruct (is_high_surrogate c) eqn:Hc.
    + destruct t as [|d t'].
      * rewrite parse_string_unicode_escape
          by (unfold is_high_surrogate in Hc; lia).
        reflexivity.
      * destruct (is_low_surrogate d) eqn:Hd.
        -- cbn [app].
           rewrite parse_string_raw by (unfold is_high_surrogate in Hc; lia).
           rewrite parse_string_raw by (unfold is_low_surrogate in Hd; lia).
           rewrite IH by (cbn [List.length] in Hlen; lia). reflexivity.
        -- rewrite <- app_assoc.
           rewrite parse_string_unicode_escape
             by (unfold is_high_surrogate in Hc; lia).
           rewrite IH by lia. reflexivity.
    + rewrite <- app_assoc, parse_string_quote_unit.
      rewrite IH by lia. reflexivity.
Qed.

Theorem parse_string_quote (s rest : jsstring) :
  parse_string (quote_units s ++ 34%N :: rest) = Some (s, rest).
Proof. apply (parse_string_quote_units (List.length s)). lia. Qed.

(* ================================================================== *)
(** * Values: reading back what [JSON.stringify] prints *)

Lemma value_induction (P : value -> Prop) :
  P JNull -> (forall b, P (JBool b)) -> (forall n, P (JNum n)) ->
  (forall s, P (JStr s)) ->
  (forall l, Forall P l -> P (JArr l)) ->
  (forall o, Forall (fun kv => P (snd kv)) o -> P (JObj o)) ->
  forall v, P v.
Proof.
  intros Hnull Hbool Hnum Hstr Harr Hobj.
  fix IH 1. intros [| b | n | s | l | o].
  - exact Hnull.
  - apply Hbool.
  - apply Hnum.
  - apply Hstr.
  - apply Harr. induction l as [|x l IHl]; constructor; [apply IH | exact IHl].
  - apply Hobj. induction o as [|kv o IHo]; constructor; [apply IH | exact IHo].
Qed.

(** ** White space *)

Lemma skip_ws_app (w s : jsstring) : all_ws w -> skip_ws (w ++ s) = skip_ws s.
Proof.
  induction 1 as [|c w Hc _ IH]; [reflexivity|].
  cbn [app skip_ws]. now rewrite Hc.
Qed.

Lemma skip_ws_head (c : code_unit) (s : jsstring) :
  is_ws c = false -> skip_ws (c :: s) = c :: s.
Proof. intros H. cbn [skip_ws]. now rewrite H. Qed.

Lemma parse_value_ws (fuel : nat) (w s : jsstring) :
  all_ws w -> parse_value fuel (w ++ s) = parse_value fuel s.
Proof.
  intros Hw. destruct fuel; [reflexivity|].
  cbn [parse_value]. now rewrite skip_ws_app.
Qed.

Lemma parse_elements_ws (fuel : nat) (w s : jsstring) (acc : list value) :
  all_ws w -> parse_elements fuel (w ++ s) acc = parse_elements fuel s acc.
Proof.
  intros Hw. destruct fuel; [reflexivity|].
  cbn [parse_elements]. now rewrite parse_value_ws.
Qed.

Lemma parse_members_ws (fuel : nat) (w s : jsstring)
  (acc : list (jsstring * value)) :
  all_ws w -> parse_members fuel (w ++ s) acc = parse_members fuel s acc.
Proof.
  intros Hw. destruct fuel; [reflexivity|].
  cbn [parse_members]. now rewrite skip_ws_app.
Qed.

Lemma all_ws_app (a b : jsstring) : all_ws a -> all_ws b -> all_ws (a ++ b).
Proof. intros; apply Forall_app; auto. Qed.

(** ** The shape of a serialisation *)

Lemma all_ws_newline (gap indent : jsstring) :
  all_ws indent -> all_ws (newline gap indent).
Proof.
  intros H. unfold newline. destruct (is_empty gap); constructor; auto.
Qed.

Lemma all_ws_after_colon (gap : jsstring) : all_ws (after_colon gap).
Proof.
  unfold after_colon. destruct (is_empty gap); repeat constructor.
Qed.

Lemma serialize_array (gap indent : jsstring) (x : value) (l : list value) :
  serialize gap indent (JArr (x :: l)) =
  lit "[" ++ newline gap (indent ++ gap) ++
  join (lit "," ++ newline gap (indent ++ gap))
       (map (serialize gap (indent ++ gap)) (x :: l)) ++
  newline gap indent ++ lit "]".
Proof.
  cbn [serialize]. unfold newline. cbn [map is_empty].
  destruct (is_empty gap); cbn [app]; rewrite ?app_nil_r; reflexivity.
Qed.

Lemma serialize_object (gap indent : jsstring) (kv : jsstring * value)
  (o : list (jsstring * value)) :
  serialize gap indent (JObj (kv :: o)) =
  lit "{" ++ newline gap (indent ++ gap) ++
  join (lit "," ++ newline gap (indent ++ gap))
       (map (member_text gap (indent ++ gap)) (kv :: o)) ++
  newline gap indent ++ lit "}".
Proof.
  cbn [serialize]. unfold newline, member_text, after_colon. cbn [map is_empty].
  destruct (is_empty gap); cbn [app]; rewrite ?app_nil_r; reflexivity.
Qed.

Lemma opens_value_app (s t : jsstring) : opens_value s -> opens_value (s ++ t).
Proof. destruct s; simpl; tauto. Qed.

Lemma digit_chars_head (ds : list Z) :
  Forall is_dec ds -> ds <> [] ->
  exists c s, digit_chars ds = c :: s /\ is_digit c = true.
Proof.
  intros H Hne. destruct ds as [|d ds]; [contradiction|].
  inversion H; subst. exists (digit_char d), (digit_chars ds).
  split; [reflexivity | now apply digit_char_is_digit].
Qed.

(** The text of a finite number starts with a digit or a minus sign. *)
Lemma Number_toString_head (x : number) :
  wf_number x = true -> is_finite x = true ->
  exists c s, Number_toString x = c :: s /\ (is_digit c = true \/ c = 45%N).
Proof.
  intros Hwf Hfin. destruct x as [| |neg|neg m e]; try discriminate.
  - exists 48%N, []. split; [reflexivity | left; reflexivity].
  - destruct (wf_number_finite _ _ _ Hwf) as (Hm & _).
    cbn [Number_toString]. destruct neg.
    + exists 45%N. eexists. split; [reflexivity | now right].
    + cbn [app].
      pose proof (digits_is_dec m ltac:(lia)) as Hdec.
      pose proof (digits_nonempty m) as Hne.
      destruct (digits m) as [|d ds] eqn:E; [contradiction|].
      pose proof (Forall_inv Hdec) as Hd.
      assert (Hc : is_digit (digit_char d) = true) by now apply digit_char_is_digit.
      cbv zeta.
      destruct ((-5 <=? Z.of_nat (List.length (d :: ds)) + e) &&
                (Z.of_nat (List.length (d :: ds)) + e <=? 21)).
      * destruct (Z.of_nat (List.length (d :: ds)) <=?
                  Z.of_nat (List.length (d :: ds)) + e).
        -- exists (digit_char d). eexists. split; [reflexivity | now left].
        -- destruct (0 <? Z.of_nat (List.length (d :: ds)) + e) eqn:En.
           ++ destruct (Z.to_nat (Z.of_nat (List.length (d :: ds)) + e)) eqn:E2; [lia|].
              exists (digit_char d). eexists. split; [reflexivity | now left].
           ++ exists 48%N. eexists. split; [reflexivity | now left].
      * destruct ds; exists (digit_char d); eexists; (split; [reflexivity | now left]).
Qed.

Lemma serialize_opens (gap indent : jsstring) (v : value) :
  wf_value v = true -> opens_value (serialize gap indent v).
Proof.
  intros Hwf. destruct v as [| [|] | n | s | [|x l] | [|kv o]].
  - cbv; repeat split; discriminate.
  - cbv; repeat split; discriminate.
  - cbv; repeat split; discriminate.
  - cbn [serialize]. destruct (is_finite n) eqn:Hfin.
    + destruct (Number_toString_head n Hwf Hfin) as (c & s & -> & Hc).
      unfold opens_value, is_ws, is_digit in *. lia.
    + cbv; repeat split; discriminate.
  - cbn [serialize QuoteJSONString app opens_value].
    repeat split; discriminate.
  - cbv; repeat split; discriminate.
  - rewrite serialize_array. eval_lit. cbn [app opens_value].
    repeat split; discriminate.
  - cbv; repeat split; discriminate.
  - rewrite serialize_object. eval_lit. cbn [app opens_value].
    repeat split; discriminate.
Qed.

(** ** Numbers and scalars *)

Lemma number_stop_sep (c : code_unit) (s : jsstring) :
  c = 44%N \/ c = 93%N \/ c = 125%N \/ c = 10%N -> number_stop (c :: s).
Proof. intros [-> | [-> | [-> | ->]]]; cbv; repeat split; discriminate. Qed.

Lemma number_stop_newline (gap indent s : jsstring) (c : code_unit) :
  c = 44%N \/ c = 93%N \/ c = 125%N ->
  number_stop (newline gap indent ++ c :: s).
Proof.
  intros H. unfold newline. destruct (is_empty gap); cbn [app];
    apply number_stop_sep; tauto.
Qed.

Lemma parse_value_number (fuel : nat) (n : number) (rest : jsstring) :
  wf_number n = true -> is_finite n = true -> number_stop rest ->
  parse_value (S fuel) (Number_toString n ++ rest) = Some (JNum (reread n), rest).
Proof.
  intros Hwf Hfin Hrest.
  pose proof (parse_number_toString n rest Hwf Hfin Hrest) as Hparse.
  destruct (Number_toString_head n Hwf Hfin) as (c & s & E & Hc).
  rewrite E in *. cbn [app] in *. cbn [parse_value].
  assert (Hws : is_ws c = false) by (unfold is_ws, is_digit in *; lia).
  rewrite skip_ws_head by assumption.
  assert ((c =? 34)%N = false) as -> by (unfold is_digit in *; lia).
  assert ((c =? 91)%N = false) as -> by (unfold is_digit in *; lia).
  assert ((c =? 123)%N = false) as -> by (unfold is_digit in *; lia).
  assert (Hn : forall t, starts_with (110%N :: t) (c :: s ++ rest) = false).
  { intros t. cbn [starts_with].
    assert ((110 =? c)%N = false) as -> by (unfold is_digit in *; lia). reflexivity. }
  assert (Ht : forall t, starts_with (116%N :: t) (c :: s ++ rest) = false).
  { intros t. cbn [starts_with].
    assert ((116 =? c)%N = false) as -> by (unfold is_digit in *; lia). reflexivity. }
  assert (Hf : forall t, starts_with (102%N :: t) (c :: s ++ rest) = false).
  { intros t. cbn [starts_with].
    assert ((102 =? c)%N = false) as -> by (unfold is_digit in *; lia). reflexivity. }
  eval_lit. rewrite Hn, Ht, Hf, Hparse. reflexivity.
Qed.

(** ** Arrays and objects *)

Lemma number_stop_ws (w : jsstring) (c : code_unit) (s : jsstring) :
  all_ws w -> number_stop (c :: s) -> number_stop (w ++ c :: s).
Proof.
  intros Hw Hc. destruct w as [|x w]; [exact Hc|].
  inversion Hw as [|? ? Hx _]; subst. cbn [app number_stop].
  unfold is_ws, is_digit in *. lia.
Qed.

Lemma join_cons (sep p : jsstring) (ps : list jsstring) :
  join sep (p :: ps) = p ++ match ps with [] => [] | _ => sep ++ join sep ps end.
Proof. destruct ps; cbn [join]; [now rewrite app_nil_r | reflexivity]. Qed.

Lemma skip_ws_opens (s : jsstring) : opens_value s -> skip_ws s = s.
Proof. destruct s as [|c s]; [intros [] | intros (H & _); now apply skip_ws_head]. Qed.

Lemma starts_with_close_opens (s : jsstring) :
  opens_value s ->
  starts_with (lit "]") s = false /\ starts_with (lit "}") s = false.
Proof.
  destruct s as [|c s]; [intros [] | intros (_ & H1 & H2)].
  eval_lit. cbn [starts_with]. split.
  - destruct (N.eqb_spec 93 c); [congruence | reflexivity].
  - destruct (N.eqb_spec 125 c); [congruence | reflexivity].
Qed.

Lemma parse_elements_join (gap indent closing : jsstring) (l : list value) :
  all_ws gap -> all_ws indent -> all_ws closing ->
  forall (x : value) (acc : list value) (fuel : nat) (rest : jsstring),
    Forall reads_back (x :: l) -> forallb wf_value (x :: l) = true ->
    (need_elements (x :: l) <= fuel)%nat ->
    parse_elements fuel
      (join (lit "," ++ newline gap indent) (map (serialize gap indent) (x :: l)) ++
       closing ++ lit "]" ++ rest) acc =
    Some (JArr (rev acc ++ map jsonify (x :: l)), rest).
Proof.
  intros Hgap Hind Hclo.
  induction l as [|y l IH]; intros x acc fuel rest Hall Hwf Hfuel.
  - cbn [map join]. cbn [forallb] in Hwf. rewrite andb_true_r in Hwf.
    unfold need_elements in Hfuel. cbn [fold_right] in Hfuel.
    destruct fuel as [|fuel]; [lia|]. cbn [parse_elements].
    rewrite (Forall_inv Hall); try assumption; try lia.
    2: { apply number_stop_ws; [assumption | now cbv]. }
    rewrite skip_ws_app by assumption.
    eval_lit. cbn [app skip_ws is_ws N.eqb Pos.eqb orb].
    cbn [rev]. reflexivity.
  - cbn [map]. rewrite join_cons. cbn [forallb] in Hwf.
    apply andb_true_iff in Hwf as [Hwx Hwl].
    destruct fuel as [|fuel]; [unfold need_elements in Hfuel; cbn in Hfuel; lia|].
    assert (Hfx : (need x <= fuel)%nat)
      by (unfold need_elements in Hfuel; cbn [fold_right] in Hfuel; lia).
    assert (Hfl : (need_elements (y :: l) <= fuel)%nat)
      by (unfold need_elements in *; cbn [fold_right] in *; lia).
    cbn [parse_elements].
    rewrite <- !app_assoc.
    change (lit "," ++ ?s) with (44%N :: s).
    rewrite (Forall_inv Hall); try assumption; try lia.
    2: { apply number_stop_sep; now left. }
    cbn [skip_ws is_ws N.eqb Pos.eqb orb].
    rewrite parse_elements_ws by now apply all_ws_newline.
    change (44%N :: newline gap indent) with (lit "," ++ newline gap indent).
    change (serialize gap indent y :: map (serialize gap indent) l)
      with (map (serialize gap indent) (y :: l)).
    rewrite IH; [| exact (Forall_inv_tail Hall) | exact Hwl | lia].
    cbn [rev map]. rewrite <- app_assoc. reflexivity.
Qed.

Lemma obj_set_append (k : jsstring) (v : value) (acc : list (jsstring * value)) :
  forallb (fun kv => negb (jsstring_eqb k (fst kv)) && negb (key_before k (fst kv)))
          acc = true ->
  obj_set k v acc = acc ++ [(k, v)].
Proof.
  induction acc as [|[k' v'] acc IH]; [reflexivity|].
  cbn [forallb fst]. rewrite !andb_true_iff, !negb_true_iff.
  intros [[H1 H2] H3]. cbn [obj_set app]. rewrite H1, H2, IH by assumption.
  reflexivity.
Qed.

Lemma forallb_jsonify_members (p : jsstring -> bool) (o : list (jsstring * value)) :
  forallb (fun kv => p (fst kv)) (jsonify_members o) =
  forallb (fun kv => p (fst kv)) o.
Proof.
  induction o as [|kv o IH]; [reflexivity|].
  unfold jsonify_members in *. cbn [map forallb fst]. now rewrite IH.
Qed.

Lemma wf_members_app_later (pre : list (jsstring * value)) (k : jsstring)
  (v : value) (o : list (jsstring * value)) :
  wf_members (pre ++ (k, v) :: o) = true ->
  forallb (fun kv => negb (jsstring_eqb k (fst kv)) && negb (key_before k (fst kv)))
          pre = true.
Proof.
  induction pre as [|[k' v'] pre IH]; [reflexivity|].
  cbn [app wf_members]. intros H.
  apply andb_true_iff in H as [Hall Hwf]. rewrite forallb_app in Hall.
  apply andb_true_iff in Hall as [_ Hall]. cbn [forallb fst] in Hall.
  apply andb_true_iff in Hall as [Hk _].
  cbn [forallb fst]. rewrite Hk. now apply IH.
Qed.

Lemma appendable_jsonify (k : jsstring) (v : value)
  (pre o : list (jsstring * value)) :
  wf_members (pre ++ (k, v) :: o) = true ->
  obj_set k (jsonify v) (jsonify_members pre) = jsonify_members (pre ++ [(k, v)]).
Proof.
  intros Hkeys. rewrite obj_set_append.
  - unfold jsonify_members. rewrite map_app. reflexivity.
  - rewrite (forallb_jsonify_members
               (fun k' => negb (jsstring_eqb k k') && negb (key_before k k'))).
    eapply wf_members_app_later; eassumption.
Qed.

Lemma parse_members_join (gap indent closing : jsstring)
  (o : list (jsstring * value)) :
  all_ws gap -> all_ws indent -> all_ws closing ->
  forall (kv : jsstring * value) (pre : list (jsstring * value)) (fuel : nat)
         (rest : jsstring),
    Forall (fun kv => reads_back (snd kv)) (kv :: o) ->
    forallb (fun kv => wf_value (snd kv)) (kv :: o) = true ->
    wf_members (pre ++ kv :: o) = true ->
    (need_members (kv :: o) <= fuel)%nat ->
    parse_members fuel
      (join (lit "," ++ newline gap indent) (map (member_text gap indent) (kv :: o)) ++
       closing ++ lit "}" ++ rest) (jsonify_members pre) =
    Some (JObj (jsonify_members (pre ++ kv :: o)), rest).
Proof.
  intros Hgap Hind Hclo.
  induction o as [|kv' o IH]; intros [k v] pre fuel rest Hall Hwf Hkeys Hfuel.
  - cbn [map join]. cbn [forallb snd] in Hwf. rewrite andb_true_r in Hwf.
    unfold need_members in Hfuel. cbn [fold_right snd] in Hfuel.
    destruct fuel as [|fuel]; [lia|]. cbn [parse_members].
    unfold member_text, QuoteJSONString. cbn [fst snd].
    rewrite <- !app_assoc. cbn [app skip_ws is_ws N.eqb Pos.eqb orb].
    change (lit ":" ++ ?s) with (58%N :: s).
    rewrite parse_string_quote.
    cbn [skip_ws is_ws N.eqb Pos.eqb orb].
    rewrite parse_value_ws by apply all_ws_after_colon.
    pose proof (Forall_inv Hall) as Hv. cbn [snd] in Hv.
    rewrite Hv; try assumption; try lia.
    2: { apply number_stop_ws; [assumption | now cbv]. }
    rewrite skip_ws_app by assumption.
    eval_lit. cbn [app skip_ws is_ws N.eqb Pos.eqb orb].
    rewrite (appendable_jsonify k v pre []) by exact Hkeys. reflexivity.
  - cbn [map]. rewrite join_cons. cbn [forallb] in Hwf.
    apply andb_true_iff in Hwf as [Hwx Hwl]. cbn [snd] in Hwx.
    destruct fuel as [|fuel]; [unfold need_members in Hfuel; cbn in Hfuel; lia|].
    assert (Hfx : (need v <= fuel)%nat)
      by (unfold need_members in Hfuel; cbn [fold_right snd] in Hfuel; lia).
    assert (Hfl : (need_members (kv' :: o) <= fuel)%nat)
      by (unfold need_members in *; cbn [fold_right snd] in *; lia).
    cbn [parse_members].
    unfold member_text at 1, QuoteJSONString. cbn [fst snd].
    rewrite <- !app_assoc. cbn [app skip_ws is_ws N.eqb Pos.eqb orb].
    change (lit ":" ++ ?s) with (58%N :: s).
    rewrite parse_string_quote.
    cbn [skip_ws is_ws N.eqb Pos.eqb orb].
    rewrite parse_value_ws by apply all_ws_after_colon.
    change (lit "," ++ ?s) with (44%N :: s).
    pose proof (Forall_inv Hall) as Hv. cbn [snd] in Hv.
    rewrite Hv; try assumption; try lia.
    2: { apply number_stop_sep; now left. }
    cbn [skip_ws is_ws N.eqb Pos.eqb orb].
    rewrite parse_members_ws by now apply all_ws_newline.
    rewrite (appendable_jsonify k v pre (kv' :: o)) by exact Hkeys.
    change (44%N :: newline gap indent) with (lit "," ++ newline gap indent).
    change (member_text gap indent kv' :: map (member_text gap indent) o)
      with (map (member_text gap indent) (kv' :: o)).
    rewrite IH; [| exact (Forall_inv_tail Hall) | exact Hwl | | lia].
    + rewrite <- app_assoc. reflexivity.
    + rewrite <- app_assoc. exact Hkeys.
Qed.

Theorem parse_value_serialize (v : value) : reads_back v.
Proof.
  induction v as [| b | n | s | l IH | o IH] using value_induction;
    intros Hwf gap indent fuel rest Hgap Hind Hfuel Hrest;
    (destruct fuel as [|fuel]; [cbn [need] in Hfuel; lia|]).
  - reflexivity.
  - destruct b; reflexivity.
  - cbn [serialize jsonify]. destruct n as [| neg | neg | neg m e].
    + reflexivity.
    + reflexivity.
    + apply (parse_value_number fuel (Zero neg)); auto.
    + apply (parse_value_number fuel (Finite neg m e)); auto.
  - cbn [serialize jsonify parse_value]. unfold QuoteJSONString.
    rewrite <- !app_assoc. cbn [app skip_ws is_ws N.eqb Pos.eqb orb].
    now rewrite parse_string_quote.
  - destruct l as [|x l].
    + cbn [serialize map is_empty jsonify]. eval_lit.
      cbn [app parse_value skip_ws is_ws N.eqb Pos.eqb orb starts_with andb skipn].
      reflexivity.
    + rewrite serialize_array. cbn [wf_value] in Hwf.
      cbn [need] in Hfuel. fold (need_elements (x :: l)) in Hfuel.
      assert (Hopen : opens_value
                (join (lit "," ++ newline gap (indent ++ gap))
                      (map (serialize gap (indent ++ gap)) (x :: l)) ++
                 newline gap indent ++ lit "]" ++ rest)).
      { cbn [map]. rewrite join_cons, <- app_assoc.
        apply opens_value_app, serialize_opens.
        cbn [forallb] in Hwf. now apply andb_true_iff in Hwf as [? _]. }
      rewrite <- !app_assoc.
      change (lit "[" ++ ?s) with (91%N :: s).
      cbn [parse_value skip_ws is_ws N.eqb Pos.eqb orb].
      rewrite skip_ws_app by (apply all_ws_newline, all_ws_app; assumption).
      rewrite (skip_ws_opens _ Hopen).
      destruct (starts_with_close_opens _ Hopen) as [-> _].
      rewrite parse_elements_ws by (apply all_ws_newline, all_ws_app; assumption).
      rewrite parse_elements_join; try assumption; try lia.
      * reflexivity.
      * now apply all_ws_app.
      * now apply all_ws_newline.
  - destruct o as [|kv o].
    + cbn [serialize map is_empty jsonify]. eval_lit.
      cbn [app parse_value skip_ws is_ws N.eqb Pos.eqb orb starts_with andb skipn].
      reflexivity.
    + rewrite serialize_object. cbn [wf_value] in Hwf.
      apply andb_true_iff in Hwf as [Hkeys Hwf].
      cbn [need] in Hfuel. fold (need_members (kv :: o)) in Hfuel.
      assert (Hopen : opens_value
                (join (lit "," ++ newline gap (indent ++ gap))
                      (map (member_text gap (indent ++ gap)) (kv :: o)) ++
                 newline gap indent ++ lit "}" ++ rest)).
      { cbn [map]. rewrite join_cons. unfold member_text at 1, QuoteJSONString.
        cbn [app opens_value]. repeat split; discriminate. }
      rewrite <- !app_assoc.
      change (lit "{" ++ ?s) with (123%N :: s).
      cbn [parse_value skip_ws is_ws N.eqb Pos.eqb orb].
      rewrite skip_ws_app by (apply all_ws_newline, all_ws_app; assumption).
      rewrite (skip_ws_opens _ Hopen).
      destruct (starts_with_close_opens _ Hopen) as [_ ->].
      rewrite parse_members_ws by (apply all_ws_newline, all_ws_app; assumption).
      change (@nil (jsstring * value)) with (jsonify_members []).
      rewrite parse_members_join; try assumption; try lia.
      * reflexivity.
      * now apply all_ws_app.
      * now apply all_ws_newline.
Qed.

(** ** The fuel of [JSON.parse] is enough *)

Lemma length_join (sep : jsstring) (parts : list jsstring) :
  (list_sum (map (@List.length code_unit) parts) <= List.length (join sep parts))%nat.
Proof.
  unfold list_sum.
  induction parts as [|p ps IH]; [apply Nat.le_refl|].
  rewrite join_cons. cbn [map fold_right]. rewrite length_app.
  destruct ps as [|p' ps]; [cbn [map fold_right List.length]; lia|].
  rewrite length_app. lia.
Qed.

Lemma Number_toString_nonempty (n : number) :
  wf_number n = true -> is_finite n = true ->
  (1 <= List.length (Number_toString n))%nat.
Proof.
  intros Hwf Hfin. destruct (Number_toString_head n Hwf Hfin) as (c & s & -> & _).
  cbn [List.length]. lia.
Qed.

Lemma need_serialize (v : value) :
  wf_value v = true ->
  forall gap indent,
    (need v + 1 <= 2 * List.length (serialize gap indent v))%nat.
Proof.
  induction v as [| b | n | s | l IH | o IH] using value_induction;
    intros Hwf gap indent.
  - cbn. lia.
  - destruct b; cbn; lia.
  - cbn [need serialize]. destruct (is_finite n) eqn:Hfin.
    + pose proof (Number_toString_nonempty n Hwf Hfin). lia.
    + cbn. lia.
  - cbn [need serialize]. unfold QuoteJSONString. rewrite !length_app.
    cbn [List.length]. lia.
  - destruct l as [|x l]; [cbn; lia|].
    rewrite serialize_array. cbn [need wf_value] in *.
    fold (need_elements (x :: l)).
    set (ind := indent ++ gap).
    rewrite !length_app.
    pose proof (length_join (lit "," ++ newline gap ind)
                  (map (serialize gap ind) (x :: l))) as Hjoin.
    unfold list_sum in Hjoin.
    assert (Hsum : (need_elements (x :: l) <=
                    2 * fold_right Nat.add 0%nat
                          (map (@List.length code_unit)
                               (map (serialize gap ind) (x :: l))))%nat).
    { clear Hjoin. generalize dependent (x :: l). clear x l.
      intros l IH Hwf. induction l as [|y l IHl]; [cbn; lia|].
      cbn [forallb] in Hwf. apply andb_true_iff in Hwf as [Hy Hl].
      unfold need_elements in *. cbn [fold_right map list_sum] in *.
      pose proof (Forall_inv IH Hy gap ind).
      specialize (IHl (Forall_inv_tail IH) Hl). lia. }
    change (List.length (lit "[")) with 1%nat.
    change (List.length (lit "]")) with 1%nat. lia.
  - destruct o as [|kv o]; [cbn; lia|].
    rewrite serialize_object. cbn [need wf_value] in *.
    apply andb_true_iff in Hwf as [_ Hwf].
    fold (need_members (kv :: o)).
    set (ind := indent ++ gap).
    rewrite !length_app.
    pose proof (length_join (lit "," ++ newline gap ind)
                  (map (member_text gap ind) (kv :: o))) as Hjoin.
    unfold list_sum in Hjoin.
    assert (Hsum : (need_members (kv :: o) <=
                    2 * fold_right Nat.add 0%nat
                          (map (@List.length code_unit)
                               (map (member_text gap ind) (kv :: o))))%nat).
    { clear Hjoin. generalize dependent (kv :: o). clear kv o.
      intros o IH Hwf. induction o as [|y o IHo]; [cbn; lia|].
      cbn [forallb] in Hwf. apply andb_true_iff in Hwf as [Hy Hl].
      unfold need_members in *. cbn [fold_right map list_sum] in *.
      pose proof (Forall_inv IH Hy gap ind) as Hlen.
      specialize (IHo (Forall_inv_tail IH) Hl).
      unfold member_text at 1. rewrite !length_app. lia. }
    change (List.length (lit "{")) with 1%nat.
    change (List.length (lit "}")) with 1%nat. lia.
Qed.

(** ** [JSON.parse] after [JSON.stringify] *)

Theorem JSON_parse_serialize (gap : jsstring) (v : value) :
  all_ws gap -> wf_value v = true ->
  JSON_parse (serialize gap [] v) = Some (jsonify v).
Proof.
  intros Hgap Hwf. unfold JSON_parse.
  pose proof (need_serialize v Hwf gap []) as Hneed.
  rewrite <- (app_nil_r (serialize gap [] v)) at 2.
  rewrite (parse_value_serialize v Hwf); try assumption.
  - reflexivity.
  - constructor.
  - lia.
  - exact I.
Qed.

Lemma jsonify_plain (v : value) : plain_numbers v = true -> jsonify v = v.
Proof.
  induction v as [| b | n | s | l IH | o IH] using value_induction;
    intros H; try reflexivity.
  - destruct n as [| | [|] |]; try discriminate; reflexivity.
  - cbn [jsonify plain_numbers] in *. f_equal.
    induction l as [|x l IHl]; [reflexivity|].
    cbn [forallb] in H. apply andb_true_iff in H as [Hx Hl].
    cbn [map]. rewrite (Forall_inv IH Hx), (IHl (Forall_inv_tail IH) Hl).
    reflexivity.
  - cbn [jsonify plain_numbers] in *. f_equal.
    induction o as [|[k x] o IHo]; [reflexivity|].
    cbn [forallb snd] in H. apply andb_true_iff in H as [Hx Hl].
    cbn [map fst snd]. pose proof (Forall_inv IH) as Hk. cbn [snd] in Hk.
    rewrite (Hk Hx), (IHo (Forall_inv_tail IH) Hl). reflexivity.
Qed.

Theorem JSON_parse_stringify (v : value) :
  wf_value v = true -> JSON_parse (JSON_stringify v) = Some (jsonify v).
Proof. intros H. apply JSON_parse_serialize; [constructor | exact H]. Qed.

Theorem JSON_parse_stringify_pretty (v : value) :
  wf_value v = true -> JSON_parse (JSON_stringify_pretty v) = Some (jsonify v).
Proof.
  intros H. apply JSON_parse_serialize; [|exact H].
  repeat constructor.
Qed.

(* ================================================================== *)
(** * What [JSON.parse] returns is well formed *)

Lemma span_digits_is_dec (s : jsstring) :
  Forall is_dec (fst (span_digits s)).
Proof.
  induction s as [|c s IH]; cbn [span_digits]; [constructor|].
  destruct (is_digit c) eqn:Hc; [|constructor].
  destruct (span_digits s) as [ds r]. cbn [fst] in *.
  constructor; [now apply digit_val_is_dec | exact IH].
Qed.

Lemma num_of_digits_bound (ds : list Z) :
  Forall is_dec ds -> 0 <= num_of_digits ds < 10 ^ Z.of_nat (List.length ds).
Proof.
  induction ds as [|d ds IH] using rev_ind; intros H.
  - cbv. split; [discriminate | reflexivity].
  - apply Forall_app in H as [H1 H2]. pose proof (Forall_inv H2) as Hd.
    specialize (IH H1). rewrite num_of_digits_app, num_of_digits_single.
    rewrite length_app. cbn [List.length].
    replace (Z.of_nat (List.length ds + 1)) with (Z.succ (Z.of_nat (List.length ds))) by lia.
    rewrite Z.pow_succ_r by lia. change (Z.of_nat 1) with 1. rewrite Z.pow_1_r.
    unfold is_dec in Hd. lia.
Qed.

Lemma to_number_wf (neg : bool) (ds : list Z) (e : Z) :
  Forall is_dec ds -> wf_number (to_number neg ds e) = true.
Proof.
  intros Hds. unfold to_number.
  pose proof (num_of_digits_bound ds Hds) as Hb.
  destruct (Z.eqb_spec (num_of_digits ds) 0) as [|Hnz]; [reflexivity|].
  pose proof (strip10_spec (List.length ds) (num_of_digits ds) e ltac:(lia)) as [Hm Hmod].
  destruct (strip10 (List.length ds) (num_of_digits ds) e) as [m e'].
  cbn [fst] in *.
  destruct (overflows m e') eqn:Hov; [reflexivity|].
  destruct (underflows m e') eqn:Hun; [reflexivity|].
  cbn [wf_number]. rewrite Hov, Hun. lia.
Qed.

Lemma parse_int_is_dec (s : jsstring) (ds : list Z) (r : jsstring) :
  parse_int s = Some (ds, r) -> Forall is_dec ds.
Proof.
  destruct s as [|c s]; cbn [parse_int]; [discriminate|].
  destruct (c =? 48)%N.
  - intros H; injection H as <- _. repeat constructor; unfold is_dec; lia.
  - destruct (is_digit c) eqn:Hc; [|discriminate].
    pose proof (span_digits_is_dec s) as Hs.
    destruct (span_digits s) as [ds' r']. intros H; injection H as <- _.
    constructor; [now apply digit_val_is_dec | exact Hs].
Qed.

Lemma parse_fraction_is_dec (s : jsstring) (ds : list Z) (r : jsstring) :
  parse_fraction s = Some (ds, r) -> Forall is_dec ds.
Proof.
  destruct s as [|c s]; cbn [parse_fraction].
  - intros H; injection H as <- _. constructor.
  - destruct (c =? 46)%N.
    + pose proof (span_digits_is_dec s) as Hs.
      destruct (span_digits s) as [[|d ds'] r']; [discriminate|].
      intros H; injection H as <- _. exact Hs.
    + intros H; injection H as <- _. constructor.
Qed.

Lemma parse_number_wf (s : jsstring) (n : number) (r : jsstring) :
  parse_number s = Some (n, r) -> wf_number n = true.
Proof.
  unfold parse_number.
  destruct (match s with
            | [] => (false, s)
            | c :: s' => if (c =? 45)%N then (true, s') else (false, s)
            end) as [neg s0].
  destruct (parse_int s0) as [[ip s1]|] eqn:Hint; [|discriminate].
  destruct (parse_fraction s1) as [[fp s2]|] eqn:Hfrac; [|discriminate].
  destruct (parse_exponent s2) as [[x s3]|]; [|discriminate].
  intros H; injection H as <- _.
  apply to_number_wf, Forall_app. split.
  - eapply parse_int_is_dec; eassumption.
  - eapply parse_fraction_is_dec; eassumption.
Qed.

(** ** Property order *)

Lemma key_before_asym (a b : jsstring) :
  key_before a b = true -> key_before b a = false.
Proof.
  unfold key_before.
  destruct (array_index a), (array_index b); try reflexivity; try discriminate. lia.
Qed.

Lemma key_before_trans (a b c : jsstring) :
  key_before a b = true -> key_before b c = true -> key_before a c = true.
Proof.
  unfold key_before.
  destruct (array_index a), (array_index b), (array_index c);
    try reflexivity; try discriminate. lia.
Qed.

Lemma forallb_impl {A : Type} (p q : A -> bool) (l : list A) :
  (forall x, p x = true -> q x = true) ->
  forallb p l = true -> forallb q l = true.
Proof.
  intros Hpq. induction l as [|x l IH]; [reflexivity|].
  cbn [forallb]. rewrite !andb_true_iff. intros [Hx Hl]. auto.
Qed.

Lemma forallb_obj_set (p : jsstring * value -> bool) (k : jsstring) (v : value)
  (o : list (jsstring * value)) :
  p (k, v) = true -> forallb p o = true -> forallb p (obj_set k v o) = true.
Proof.
  intros Hkv. induction o as [|[k' v'] o IH]; cbn [obj_set forallb].
  - now rewrite Hkv.
  - rewrite andb_true_iff. intros [Hx Hl].
    destruct (jsstring_eqb k k'); [|destruct (key_before k k')];
      cbn [forallb]; rewrite ?Hkv, ?Hx, ?Hl, ?IH; auto.
Qed.

Lemma wf_members_cons (k : jsstring) (v : value) (o : list (jsstring * value)) :
  wf_members ((k, v) :: o) = forallb (may_follow k) o && wf_members o.
Proof. reflexivity. Qed.

Lemma wf_members_obj_set (k : jsstring) (v : value) (o : list (jsstring * value)) :
  wf_members o = true -> wf_members (obj_set k v o) = true.
Proof.
  induction o as [|[k' v'] o IH]; [reflexivity|].
  rewrite wf_members_cons. intros H. apply andb_true_iff in H as [Hall Hwf].
  cbn [obj_set].
  destruct (jsstring_eqb k k') eqn:Heq.
  - apply jsstring_eqb_eq in Heq; subst k'.
    rewrite wf_members_cons, Hall, Hwf. reflexivity.
  - destruct (key_before k k') eqn:Hbef.
    + rewrite !wf_members_cons. cbn [forallb]. rewrite Hall, Hwf, !andb_true_r.
      apply andb_true_iff. split.
      * unfold may_follow. cbn [fst].
        rewrite jsstring_eqb_sym, Heq, (key_before_asym _ _ Hbef). reflexivity.
      * revert Hall. apply forallb_impl. intros [kx vx]. unfold may_follow.
        cbn [fst]. rewrite !andb_true_iff, !negb_true_iff. intros [Hne Hnb].
        split.
        -- destruct (jsstring_eqb kx k) eqn:E; [|reflexivity].
           apply jsstring_eqb_eq in E; subst kx. congruence.
        -- destruct (key_before kx k) eqn:E; [|reflexivity].
           rewrite (key_before_trans _ _ _ E Hbef) in Hnb. discriminate.
    + rewrite wf_members_cons. apply andb_true_iff. split; [|now apply IH].
      apply forallb_obj_set; [|exact Hall].
      unfold may_follow. cbn [fst]. now rewrite Heq, Hbef.
Qed.

Lemma forallb_rev {A : Type} (p : A -> bool) (l : list A) :
  forallb p l = true -> forallb p (rev l) = true.
Proof.
  rewrite !forallb_forall. intros H x Hx. apply H. now apply in_rev.
Qed.

(** ** The parser *)

Lemma parse_wf (fuel : nat) :
  (forall s v r, parse_value fuel s = Some (v, r) -> wf_value v = true) /\
  (forall s acc v r,
      forallb wf_value acc = true ->
      parse_elements fuel s acc = Some (v, r) -> wf_value v = true) /\
  (forall s acc v r,
      wf_members acc = true -> forallb (fun kv => wf_value (snd kv)) acc = true ->
      parse_members fuel s acc = Some (v, r) -> wf_value v = true).
Proof.
  induction fuel as [|fuel (IHv & IHe & IHm)].
  - repeat split; intros; discriminate.
  - split; [|split].
    + intros s v r H. cbn [parse_value] in H.
      destruct (skip_ws s) as [|c t]; [discriminate|].
      destruct (c =? 34)%N.
      { destruct (parse_string t) as [[str rest]|]; [|discriminate].
        injection H as <- _. reflexivity. }
      destruct (c =? 91)%N.
      { destruct (starts_with (lit "]") (skip_ws t)).
        - injection H as <- _. reflexivity.
        - eapply IHe; [|exact H]. reflexivity. }
      destruct (c =? 123)%N.
      { destruct (starts_with (lit "}") (skip_ws t)).
        - injection H as <- _. reflexivity.
        - eapply IHm; [| |exact H]; reflexivity. }
      destruct (starts_with (lit "null") (c :: t)); [injection H as <- _; reflexivity|].
      destruct (starts_with (lit "true") (c :: t)); [injection H as <- _; reflexivity|].
      destruct (starts_with (lit "false") (c :: t)); [injection H as <- _; reflexivity|].
      destruct (parse_number (c :: t)) as [[n rest]|] eqn:Hn; [|discriminate].
      injection H as <- _. cbn [wf_value]. eapply parse_number_wf; eassumption.
    + intros s acc v r Hacc H. cbn [parse_elements] in H.
      destruct (parse_value fuel s) as [[v0 r0]|] eqn:Hv; [|discriminate].
      apply IHv in Hv.
      destruct (skip_ws r0) as [|c t]; [discriminate|].
      destruct (c =? 44)%N.
      { eapply IHe; [|exact H]. cbn [forallb]. now rewrite Hv, Hacc. }
      destruct (c =? 93)%N; [|discriminate].
      injection H as <- _. cbn [wf_value].
      change (rev acc ++ [v0]) with (rev (v0 :: acc)). apply forallb_rev.
      cbn [forallb]. now rewrite Hv, Hacc.
    + intros s acc v r Hkeys Hacc H. cbn [parse_members] in H.
      destruct (skip_ws s) as [|q t]; [discriminate|].
      destruct (q =? 34)%N; [|discriminate].
      destruct (parse_string t) as [[k r1]|]; [|discriminate].
      destruct (skip_ws r1) as [|c r2]; [discriminate|].
      destruct (c =? 58)%N; [|discriminate].
      destruct (parse_value fuel r2) as [[v0 r3]|] eqn:Hv; [|discriminate].
      apply IHv in Hv.
      destruct (skip_ws r3) as [|d r4]; [discriminate|].
      assert (Hkeys' : wf_members (obj_set k v0 acc) = true)
        by now apply wf_members_obj_set.
      assert (Hacc' : forallb (fun kv => wf_value (snd kv)) (obj_set k v0 acc) = true)
        by now apply forallb_obj_set.
      destruct (d =? 44)%N.
      { eapply IHm; [| |exact H]; assumption. }
      destruct (d =? 125)%N; [|discriminate].
      injection H as <- _. cbn [wf_value]. now rewrite Hkeys', Hacc'.
Qed.

Theorem JSON_parse_wf (text : jsstring) (v : value) :
  JSON_parse text = Some v -> wf_value v = true.
Proof.
  unfold JSON_parse.
  destruct (parse_value (2 * List.length text + 1) text) as [[v0 rest]|] eqn:H;
    [|discriminate].
  destruct (skip_ws rest); [|discriminate].
  intros E; injection E as <-.
  destruct (parse_wf (2 * List.length text + 1)) as [Hv _]. eapply Hv, H.
Qed.

(* ================================================================== *)
(** * The client: one request per call *)

Lemma request_rejected (this : NeatPulseClient) (method path : jsstring)
  (body : option value) (env : Env) (log : list Request) (e : JsError) :
  remote env log (request_options this method path body) = Throw e ->
  request this method path body env log =
  (Throw e, log ++ [request_options this method path body]).
Proof.
  intros H. cbv beta iota zeta delta [request bind fetch]. now rewrite H.
Qed.

Lemma request_not_ok (this : NeatPulseClient) (method path : jsstring)
  (body : option value) (env : Env) (log : list Request) (res : Response) :
  remote env log (request_options this method path body) = Return res ->
  ok res = false ->
  request this method path body env log =
  (Throw (Error (failure_message method path (status res)
                                 (text_or_empty (body_text res)))),
   log ++ [request_options this method path body]).
Proof.
  intros H Hok. cbv beta iota zeta delta [request bind fetch]. rewrite H, Hok.
  cbv beta iota zeta delta [negb try_catch res_text lift ret throw].
  destruct (body_text res); reflexivity.
Qed.

Lemma request_ok (this : NeatPulseClient) (method path : jsstring)
  (body : option value) (env : Env) (log : list Request) (res : Response) :
  remote env log (request_options this method path body) = Return res ->
  ok res = true ->
  request this method path body env log =
  (decode_response env (content_type res) (body_text res),
   log ++ [request_options this method path body]).
Proof.
  intros H Hok. cbv beta iota zeta delta [request bind fetch]. rewrite H, Hok.
  cbv beta iota zeta delta
    [negb decode_response res_json res_text lift ret bind JSON_parse_M].
  destruct (includes _ _); destruct (body_text res) as [t|e]; try reflexivity.
  destruct (JSON_parse t); reflexivity.
Qed.

Lemma request_sends (this : NeatPulseClient) (method path : jsstring)
  (body : option value) (env : Env) (log : list Request) :
  snd (request this method path body env log) =
  log ++ [request_options this method path body].
Proof.
  destruct (remote env log (request_options this method path body)) as [res|e] eqn:Hr.
  - destruct (ok res) eqn:Hok.
    + now rewrite (request_ok _ _ _ _ _ _ _ Hr Hok).
    + now rewrite (request_not_ok _ _ _ _ _ _ _ Hr Hok).
  - now rewrite (request_rejected _ _ _ _ _ _ _ Hr).
Qed.

(** A value the client returns is a string or comes from [JSON.parse]. *)
Lemma request_returns_wf (this : NeatPulseClient) (method path : jsstring)
  (body : option value) (env : Env) (log log' : list Request) (v : value) :
  request this method path body env log = (Return v, log') -> wf_value v = true.
Proof.
  destruct (remote env log (request_options this method path body)) as [res|e] eqn:Hr.
  - destruct (ok res) eqn:Hok.
    + rewrite (request_ok _ _ _ _ _ _ _ Hr Hok). unfold decode_response.
      destruct (body_text res) as [t|e]; [|discriminate].
      destruct (includes _ _).
      * destruct (JSON_parse t) as [v0|] eqn:Hp; [|discriminate].
        intros H; injection H as <- _. eapply JSON_parse_wf; eassumption.
      * intros H; injection H as <- _. reflexivity.
    + rewrite (request_not_ok _ _ _ _ _ _ _ Hr Hok). discriminate.
  - rewrite (request_rejected _ _ _ _ _ _ _ Hr). discriminate.
Qed.

(** Every client method is one call of [request], after the parse of a
    JSON text argument where the tool takes one. *)
Lemma client_call_cases (pulse : NeatPulseClient) (call : ToolCall) (env : Env)
  (log : list Request) :
  (exists method path body,
      client_call pulse call env log = request pulse method path body env log) \/
  (exists text,
      JSON_parse text = None /\
      client_call pulse call env log =
      (Throw (SyntaxError (syntax_message env text)), log)).
Proof.
  destruct call; cbn [client_call];
    try (left; do 3 eexists; reflexivity);
    unfold bind, JSON_parse_M;
    match goal with
    | |- context [JSON_parse ?t] =>
        destruct (JSON_parse t) eqn:E;
        [ left; do 3 eexists; reflexivity
        | right; exists t; split; [assumption | reflexivity] ]
    end.
Qed.

Lemma wf_value_numbers (l : list number) :
  forallb wf_number l = true -> wf_value (numbers_value l) = true.
Proof.
  intros H. unfold numbers_value. cbn [wf_value].
  induction l as [|n l IH]; [reflexivity|].
  cbn [forallb map] in *. apply andb_true_iff in H as [Hn Hl].
  cbn [wf_value]. now rewrite Hn, IH.
Qed.

Lemma wf_value_strings (l : list jsstring) : wf_value (JArr (map JStr l)) = true.
Proof. cbn [wf_value]. induction l as [|x l IH]; [reflexivity | exact IH]. Qed.

(** The body a client method is called with is well formed when the
    numbers among the arguments are. *)
Lemma client_call_body_wf (pulse : NeatPulseClient) (call : ToolCall) (env : Env)
  (log : list Request) :
  wf_call call = true ->
  (exists method path body,
      client_call pulse call env log = request pulse method path body env log /\
      match body with
      | Some b => wf_value b = true
      | None => True
      end) \/
  (exists text,
      JSON_parse text = None /\
      client_call pulse call env log =
      (Throw (SyntaxError (syntax_message env text)), log)).
Proof.
  intros Hwf.
  destruct call; cbn [client_call wf_call] in *;
    try (left; do 3 eexists; split; [reflexivity | exact I]);
    try (unfold bind, JSON_parse_M;
         match goal with
         | |- context [JSON_parse ?t] =>
             destruct (JSON_parse t) eqn:E;
             [ left; do 3 eexists; split;
               [reflexivity | eapply JSON_parse_wf; eassumption]
             | right; exists t; split; [assumption | reflexivity] ]
         end);
    left; do 3 eexists; (split; [reflexivity|]);
    repeat match goal with
           | x : option _ |- _ => destruct x
           end;
    cbn [object_of option_map wf_value forallb snd andb role_value];
    rewrite ?Hwf, ?wf_value_numbers, ?wf_value_strings by assumption;
    try reflexivity;
    first [ apply wf_value_strings
          | match goal with r : Role |- _ => destruct r; reflexivity end ].
Qed.

(** The uniform wrapper: every handler is its client call inside one
    [try]/[catch]. *)
Lemma handler_wraps (pulse : NeatPulseClient) (call : ToolCall) (env : Env)
  (log : list Request) :
  handler pulse call env log =
  match client_call pulse call env log with
  | (Return data, log') => (Return (json data), log')
  | (Throw e, log') => (Return (error (message e)), log')
  end.
Proof.
  destruct call; cbn [handler client_call]; unfold try_catch, bind, ret;
    try (match goal with
         | |- context [match ?m env log with _ => _ end] =>
             destruct (m env log) as [[d|e] l]; reflexivity
         end);
    unfold JSON_parse_M;
    match goal with
    | |- context [JSON_parse ?t] => destruct (JSON_parse t); [|reflexivity]
    end;
    match goal with
    | |- context [match ?m env log with _ => _ end] =>
        destruct (m env log) as [[d|e] l]; reflexivity
    end.
Qed.

(* ================================================================== *)
(** * The fuel of [JSON.parse] never runs out *)


Lemma skip_ws_length (s : jsstring) :
  (List.length (skip_ws s) <= List.length s)%nat.
Proof.
  induction s as [|c s IH]; cbn [skip_ws List.length]; [llia|].
  destruct (is_ws c); cbn [List.length]; llia.
Qed.

Lemma span_digits_length (s : jsstring) :
  (List.length (snd (span_digits s)) <= List.length s)%nat.
Proof.
  induction s as [|c s IH]; cbn [span_digits]; [cbn; llia|].
  destruct (is_digit c); [|cbn; llia].
  destruct (span_digits s) as [ds r]. cbn [snd List.length] in *. llia.
Qed.

Lemma parse_string_length (s k r : jsstring) :
  parse_string s = Some (k, r) -> (List.length r < List.length s)%nat.
Proof.
  remember (List.length s) as n eqn:Hn. revert s k r Hn.
  induction n as [n IH] using lt_wf_ind. intros s k r Hn H.
  destruct s as [|c s]; [discriminate|]. cbn [parse_string] in H.
  cbn [List.length] in Hn.
  destruct (c =? 34)%N; [injection H as _ <-; llia|].
  destruct (c =? 92)%N.
  - destruct s as [|x s1]; [discriminate|]. cbn [List.length] in Hn.
    destruct (x =? 117)%N.
    + destruct s1 as [|h1 [|h2 [|h3 [|h4 r2]]]]; try discriminate.
      cbn [List.length] in Hn.
      destruct (hex4 h1 h2 h3 h4); [|discriminate].
      destruct (parse_string r2) as [[str rest]|] eqn:E; [|discriminate].
      injection H as _ <-.
      pose proof (IH (List.length r2) ltac:(llia) r2 str rest eq_refl E). llia.
    + destruct (unescape x); [|discriminate].
      destruct (parse_string s1) as [[str rest]|] eqn:E; [|discriminate].
      injection H as _ <-.
      pose proof (IH (List.length s1) ltac:(llia) s1 str rest eq_refl E). llia.
  - destruct (c <? 32)%N; [discriminate|].
    destruct (parse_string s) as [[str rest]|] eqn:E; [|discriminate].
    injection H as _ <-.
    pose proof (IH (List.length s) ltac:(llia) s str rest eq_refl E). llia.
Qed.

Lemma parse_int_length (s : jsstring) (ds : list Z) (r : jsstring) :
  parse_int s = Some (ds, r) -> (List.length r < List.length s)%nat.
Proof.
  destruct s as [|c s]; cbn [parse_int]; [discriminate|].
  destruct (c =? 48)%N; [intros H; injection H as _ <-; cbn; llia|].
  destruct (is_digit c); [|discriminate].
  pose proof (span_digits_length s) as Hs.
  destruct (span_digits s) as [ds' r']. intros H; injection H as _ <-.
  cbn [snd List.length] in *. llia.
Qed.

Lemma parse_fraction_length (s : jsstring) (ds : list Z) (r : jsstring) :
  parse_fraction s = Some (ds, r) -> (List.length r <= List.length s)%nat.
Proof.
  destruct s as [|c s]; cbn [parse_fraction].
  - intros H; injection H as _ <-. llia.
  - destruct (c =? 46)%N.
    + pose proof (span_digits_length s) as Hs.
      destruct (span_digits s) as [[|d ds'] r']; [discriminate|].
      intros H; injection H as _ <-. cbn [snd List.length] in *. llia.
    + intros H; injection H as _ <-. llia.
Qed.

Lemma parse_exponent_length (s : jsstring) (x : Z) (r : jsstring) :
  parse_exponent s = Some (x, r) -> (List.length r <= List.length s)%nat.
Proof.
  destruct s as [|c s1]; cbn [parse_exponent].
  - intros H; injection H as _ <-. llia.
  - destruct ((c =? 101)%N || (c =? 69)%N).
    + assert (Hsign : forall sign s2,
                 (List.length s2 <= List.length s1)%nat ->
                 (let (ds, r0) := span_digits s2 in
                  match ds with
                  | [] => None
                  | _ :: _ => Some (sign * num_of_digits ds, r0)
                  end) = Some (x, r) ->
                 (List.length r <= List.length (c :: s1))%nat).
      { intros sign s2 Hle. pose proof (span_digits_length s2) as Hs.
        destruct (span_digits s2) as [[|d ds] r0]; [discriminate|].
        intros H; injection H as _ <-. cbn [snd List.length] in *. llia. }
      destruct s1 as [|d s2']; [apply (Hsign 1); llia|].
      destruct (d =? 45)%N; [apply (Hsign (-1)); cbn; llia|].
      destruct (d =? 43)%N; [apply (Hsign 1); cbn; llia|].
      apply (Hsign 1); llia.
    + intros H; injection H as _ <-. llia.
Qed.

Lemma parse_number_length (s : jsstring) (n : number) (r : jsstring) :
  parse_number s = Some (n, r) -> (List.length r < List.length s)%nat.
Proof.
  unfold parse_number.
  assert (Hs0 : (List.length
                   (snd (match s with
                         | [] => (false, s)
                         | c :: s' => if (c =? 45)%N then (true, s') else (false, s)
                         end)) <= List.length s)%nat).
  { destruct s as [|c s']; [cbn; llia|]. destruct (c =? 45)%N; cbn; llia. }
  destruct (match s with
            | [] => (false, s)
            | c :: s' => if (c =? 45)%N then (true, s') else (false, s)
            end) as [neg s0].
  cbn [snd] in Hs0.
  destruct (parse_int s0) as [[ip s1]|] eqn:Hint; [|discriminate].
  destruct (parse_fraction s1) as [[fp s2]|] eqn:Hfrac; [|discriminate].
  destruct (parse_exponent s2) as [[x s3]|] eqn:Hexp; [|discriminate].
  intros H; injection H as _ <-.
  apply parse_int_length in Hint. apply parse_fraction_length in Hfrac.
  apply parse_exponent_length in Hexp. llia.
Qed.

(** Each parser consumes at least one character. *)
Lemma parse_consumes (fuel : nat) :
  (forall s v r, parse_value fuel s = Some (v, r) ->
                 (List.length r < List.length s)%nat) /\
  (forall s acc v r, parse_elements fuel s acc = Some (v, r) ->
                     (List.length r < List.length s)%nat) /\
  (forall s acc v r, parse_members fuel s acc = Some (v, r) ->
                     (List.length r < List.length s)%nat).
Proof.
  induction fuel as [|fuel (IHv & IHe & IHm)].
  - repeat split; intros; discriminate.
  - split; [|split].
    + intros s v r H. cbn [parse_value] in H.
      pose proof (skip_ws_length s) as Hs.
      destruct (skip_ws s) as [|c t]; [discriminate|]. cbn [List.length] in Hs.
      destruct (c =? 34)%N.
      { destruct (parse_string t) as [[str rest]|] eqn:E; [|discriminate].
        injection H as _ <-. apply parse_string_length in E. llia. }
      pose proof (skip_ws_length t) as Ht.
      destruct (c =? 91)%N.
      { destruct (starts_with (lit "]") (skip_ws t)).
        - injection H as _ <-.
          destruct (skip_ws t); cbn [skipn List.length] in *; llia.
        - apply IHe in H. llia. }
      destruct (c =? 123)%N.
      { destruct (starts_with (lit "}") (skip_ws t)).
        - injection H as _ <-.
          destruct (skip_ws t); cbn [skipn List.length] in *; llia.
        - apply IHm in H. llia. }
      assert (Hskip : forall n, (List.length (skipn n t) <= List.length t)%nat)
        by (intros n; rewrite length_skipn; llia).
      destruct (starts_with (lit "null") (c :: t)).
      { injection H as _ <-. change (List.length (skipn 3 t) < List.length s)%nat.
        specialize (Hskip 3%nat). llia. }
      destruct (starts_with (lit "true") (c :: t)).
      { injection H as _ <-. change (List.length (skipn 3 t) < List.length s)%nat.
        specialize (Hskip 3%nat). llia. }
      destruct (starts_with (lit "false") (c :: t)).
      { injection H as _ <-. change (List.length (skipn 4 t) < List.length s)%nat.
        specialize (Hskip 4%nat). llia. }
      destruct (parse_number (c :: t)) as [[n rest]|] eqn:Hn; [|discriminate].
      injection H as _ <-. apply parse_number_length in Hn.
      cbn [List.length] in Hn. llia.
    + intros s acc v r H. cbn [parse_elements] in H.
      destruct (parse_value fuel s) as [[v0 r0]|] eqn:Hv; [|discriminate].
      apply IHv in Hv. pose proof (skip_ws_length r0) as Hs.
      destruct (skip_ws r0) as [|c t]; [discriminate|]. cbn [List.length] in Hs.
      destruct (c =? 44)%N; [apply IHe in H; llia|].
      destruct (c =? 93)%N; [|discriminate].
      injection H as _ <-. llia.
    + intros s acc v r H. cbn [parse_members] in H.
      pose proof (skip_ws_length s) as Hs.
      destruct (skip_ws s) as [|q t]; [discriminate|]. cbn [List.length] in Hs.
      destruct (q =? 34)%N; [|discriminate].
      destruct (parse_string t) as [[k r1]|] eqn:Hk; [|discriminate].
      apply parse_string_length in Hk. pose proof (skip_ws_length r1) as Hs1.
      destruct (skip_ws r1) as [|c r2]; [discriminate|]. cbn [List.length] in Hs1.
      destruct (c =? 58)%N; [|discriminate].
      destruct (parse_value fuel r2) as [[v0 r3]|] eqn:Hv; [|discriminate].
      apply IHv in Hv. pose proof (skip_ws_length r3) as Hs3.
      destruct (skip_ws r3) as [|d r4]; [discriminate|]. cbn [List.length] in Hs3.
      destruct (d =? 44)%N; [apply IHm in H; llia|].
      destruct (d =? 125)%N; [|discriminate].
      injection H as _ <-. llia.
Qed.

(** With fuel of twice the length of the text and one, more fuel changes
    nothing. *)
Lemma parse_fuel_stable (fuel : nat) :
  (forall s extra, (2 * List.length s + 1 <= fuel)%nat ->
                   parse_value (fuel + extra) s = parse_value fuel s) /\
  (forall s acc extra, (2 * List.length s + 2 <= fuel)%nat ->
                       parse_elements (fuel + extra) s acc =
                       parse_elements fuel s acc) /\
  (forall s acc extra, (2 * List.length s + 2 <= fuel)%nat ->
                       parse_members (fuel + extra) s acc =
                       parse_members fuel s acc).
Proof.
  induction fuel as [|fuel (IHv & IHe & IHm)].
  - repeat split; intros; llia.
  - destruct (parse_consumes fuel) as (Cv & _ & _).
    split; [|split].
    + intros s extra Hf. cbn [Nat.add parse_value].
      pose proof (skip_ws_length s) as Hs.
      destruct (skip_ws s) as [|c t]; [reflexivity|]. cbn [List.length] in Hs.
      destruct (c =? 34)%N; [reflexivity|].
      destruct (c =? 91)%N.
      { destruct (starts_with (lit "]") (skip_ws t)); [reflexivity|].
        apply IHe. llia. }
      destruct (c =? 123)%N.
      { destruct (starts_with (lit "}") (skip_ws t)); [reflexivity|].
        apply IHm. llia. }
      reflexivity.
    + intros s acc extra Hf. cbn [Nat.add parse_elements].
      rewrite IHv by llia.
      destruct (parse_value fuel s) as [[v0 r0]|] eqn:Hv; [|reflexivity].
      apply Cv in Hv. pose proof (skip_ws_length r0) as Hs.
      destruct (skip_ws r0) as [|c t]; [reflexivity|]. cbn [List.length] in Hs.
      destruct (c =? 44)%N; [|reflexivity].
      apply IHe. llia.
    + intros s acc extra Hf. cbn [Nat.add parse_members].
      pose proof (skip_ws_length s) as Hs.
      destruct (skip_ws s) as [|q t]; [reflexivity|]. cbn [List.length] in Hs.
      destruct (q =? 34)%N; [|reflexivity].
      destruct (parse_string t) as [[k r1]|] eqn:Hk; [|reflexivity].
      apply parse_string_length in Hk. pose proof (skip_ws_length r1) as Hs1.
      destruct (skip_ws r1) as [|c r2]; [reflexivity|]. cbn [List.length] in Hs1.
      destruct (c =? 58)%N; [|reflexivity].
      rewrite IHv by llia.
      destruct (parse_value fuel r2) as [[v0 r3]|] eqn:Hv; [|reflexivity].
      apply Cv in Hv. pose proof (skip_ws_length r3) as Hs3.
      destruct (skip_ws r3) as [|d r4]; [reflexivity|]. cbn [List.length] in Hs3.
      destruct (d =? 44)%N; [|reflexivity].
      apply IHm. llia.
Qed.

(** The answer of [JSON.parse] is the parser's with any larger fuel: a
    [None] is a syntax error of the text, never a lack of fuel. *)
Theorem JSON_parse_fuel (text : jsstring) (extra : nat) :
  JSON_parse text =
  match parse_value (2 * List.length text + 1 + extra) text with
  | Some (v, rest) => match skip_ws rest with [] => Some v | _ => None end
  | None => None
  end.
Proof.
  unfold JSON_parse.
  destruct (parse_fuel_stable (2 * List.length text + 1)) as (Hv & _ & _).
  rewrite Hv by llia. reflexivity.
Qed.

(* ================================================================== *)
(** * The claims *)

(** ** C1 *)

(** C1: for every registered tool and every argument assignment, the handler
    returns a ToolEnvelope and never throws.  When the client call or the
    argument transformation inside its [try] throws an error, the envelope is
    the error envelope of that error's message: marked [isError], its text
    the message after the prefix [Error: ], so the text contains the message.
    When the call returns, the envelope is the success envelope of the
    result. *)
Theorem handler_catches_every_error (pulse : NeatPulseClient) (call : ToolCall)
  (env : Env) (log : list Request) :
  exists envelope log',
    handler pulse call env log = (Return envelope, log') /\
    (forall e log'',
        client_call pulse call env log = (Throw e, log'') ->
        envelope = error (message e) /\
        isError envelope = Some true /\
        envelope_text envelope = lit "Error: " ++ message e /\
        includes (envelope_text envelope) (message e) = true /\
        log' = log'') /\
    (forall data log'',
        client_call pulse call env log = (Return data, log'') ->
        envelope = json data /\ isError envelope = None /\ log' = log'').
Proof.
  rewrite handler_wraps.
  destruct (client_call pulse call env log) as [[data|e] l].
  - exists (json data), l. split; [reflexivity|]. split.
    + intros e log'' H. discriminate.
    + intros d log'' H. injection H as <- <-. repeat split.
  - exists (error (message e)), l. split; [reflexivity|]. split.
    + intros e' log'' H. injection H as <- <-.
      split; [reflexivity|]. split; [reflexivity|]. split; [reflexivity|].
      split; [|reflexivity].
      cbn [envelope_text error content text]. apply includes_suffix.
    + intros d log'' H. discriminate.
Qed.

(** ** C2 *)

Lemma includes_failure_message (method path : jsstring) (code : Z)
  (text : jsstring) :
  let msg := failure_message method path code text in
  includes msg method = true /\ includes msg path = true /\
  includes msg (Number_toString (int_number code)) = true /\
  includes msg text = true.
Proof.
  cbv zeta. unfold failure_message. repeat split.
  - apply includes_app.
  - rewrite (app_assoc (lit "Neat Pulse API ")), (app_assoc _ (lit " ")).
    apply includes_app.
  - rewrite (app_assoc (lit "Neat Pulse API ")), (app_assoc _ (lit " ")),
      (app_assoc _ path), (app_assoc _ (lit " returned ")).
    apply includes_app.
  - rewrite (app_assoc (lit "Neat Pulse API ")), (app_assoc _ (lit " ")),
      (app_assoc _ path), (app_assoc _ (lit " returned ")),
      (app_assoc _ (Number_toString _)), (app_assoc _ (lit ": ")).
    apply includes_suffix.
Qed.

(** The status of a response prints as its decimal digits. *)
Lemma status_digits (code : Z) :
  0 <= code <= 999 ->
  Number_toString (int_number code) = digit_chars (digits code).
Proof.
  intros H.
  assert (Hall : forallb (fun n => jsstring_eqb
                                     (Number_toString (int_number (Z.of_nat n)))
                                     (digit_chars (digits (Z.of_nat n))))
                         (seq 0 1000) = true) by (vm_compute; reflexivity).
  rewrite forallb_forall in Hall. specialize (Hall (Z.to_nat code)).
  rewrite Z2Nat.id in Hall by lia. apply jsstring_eqb_eq, Hall.
  apply in_seq. lia.
Qed.

(** C2: for every call of the client's [request] (every client method is
    one) and every response whose status is not in the success range, the
    call throws one [Error], after sending its one request, and the message
    of the error contains the HTTP method, the request path, the status code
    in decimal and the body text, the empty string standing for a body that
    could not be read. *)
Theorem request_failure_is_one_error (this : NeatPulseClient)
  (method path : jsstring) (body : option value) (env : Env)
  (log : list Request) (res : Response) :
  remote env log (request_options this method path body) = Return res ->
  ok res = false ->
  let text := text_or_empty (body_text res) in
  let msg := failure_message method path (status res) text in
  request this method path body env log =
    (Throw (Error msg), log ++ [request_options this method path body]) /\
  message (Error msg) = msg /\
  includes msg method = true /\
  includes msg path = true /\
  includes msg (Number_toString (int_number (status res))) = true /\
  (0 <= status res <= 999 ->
   includes msg (digit_chars (digits (status res))) = true) /\
  includes msg text = true /\
  (forall e, body_text res = Throw e -> text = []).
Proof.
  intros Hres Hok text msg.
  destruct (includes_failure_message method path (status res) text)
    as (Hm & Hp & Hs & Ht).
  split; [now apply request_not_ok|]. split; [reflexivity|].
  split; [exact Hm|]. split; [exact Hp|]. split; [exact Hs|].
  split; [intros Hb; rewrite <- status_digits by exact Hb; exact Hs|].
  split; [exact Ht|].
  intros e He. subst text. now rewrite He.
Qed.

(** The 404 example of the specification. *)
Lemma request_failure_404 :
  let env := answering 404 None (lit "not found") in
  let msg := lit "Neat Pulse API GET /endpoints/d1 returned 404: not found" in
  getEndpoint example_client (lit "d1") env [] =
    (Throw (Error msg),
     [request_options example_client (lit "GET") (lit "/endpoints/d1") None]) /\
  includes msg (lit "GET") = true /\
  includes msg (lit "/endpoints/d1") = true /\
  includes msg (lit "404") = true /\
  includes msg (lit "not found") = true.
Proof.
  pose proof (request_failure_is_one_error example_client (lit "GET")
                (lit "/endpoints/d1") None
                (answering 404 None (lit "not found")) []
                {| status := 404; content_type := None;
                   body_text := Return (lit "not found") |}
                eq_refl eq_refl) as H.
  cbv zeta in H. destruct H as (H1 & _ & H2 & H3 & _ & H4 & H5 & _).
  specialize (H4 ltac:(cbn; lia)).
  split; [exact H1|]. split; [exact H2|]. split; [exact H3|].
  split; [exact H4 | exact H5].
Defined.

(** ** C4 *)

(** C4: when the [config] argument of apply-device-config is not valid JSON
    text, the handler returns the error envelope of the [SyntaxError] that
    [JSON.parse] throws, its text that error's message after [Error: ], and
    the log of requests is unchanged: [applyEndpointConfig] is not called and
    nothing is sent.  The same holds for the [content] argument of
    create-room-note and [createRoomNote]. *)
Theorem invalid_json_argument_is_reported (pulse : NeatPulseClient)
  (id text : jsstring) (env : Env) (log : list Request) :
  JSON_parse text = None ->
  let failure := SyntaxError (syntax_message env text) in
  (handler pulse (apply_device_config id text) env log =
     (Return (error (message failure)), log) /\
   handler pulse (create_room_note id text) env log =
     (Return (error (message failure)), log)) /\
  isError (error (message failure)) = Some true /\
  envelope_text (error (message failure)) =
    lit "Error: " ++ syntax_message env text /\
  (forall parsed,
      snd (applyEndpointConfig pulse id parsed env log) <> log /\
      snd (createRoomNote pulse id parsed env log) <> log).
Proof.
  intros Hparse failure. split; [|split; [|split]].
  - split; cbn [handler]; cbv beta iota zeta delta [try_catch bind JSON_parse_M];
      rewrite Hparse; reflexivity.
  - reflexivity.
  - reflexivity.
  - intros parsed. unfold applyEndpointConfig, createRoomNote.
    rewrite !request_sends.
    split; intros H; apply (f_equal (@List.length Request)) in H;
      rewrite length_app in H; cbn [List.length] in H; lia.
Qed.

(** The example of the specification: [{not valid json]. *)
Lemma invalid_json_argument_example :
  let env := answering 200 None [] in
  JSON_parse (lit "{not valid json") = None /\
  handler example_client
          (apply_device_config (lit "d1") (lit "{not valid json")) env [] =
    (Return (error (lit "Unexpected token in JSON")), []) /\
  handler example_client
          (create_room_note (lit "r1") (lit "{not valid json")) env [] =
    (Return (error (lit "Unexpected token in JSON")), []).
Proof.
  assert (Hp : JSON_parse (lit "{not valid json") = None) by (vm_compute; reflexivity).
  split; [exact Hp|].
  split.
  - exact (proj1 (proj1 (invalid_json_argument_is_reported
                           example_client (lit "d1") (lit "{not valid json")
                           (answering 200 None []) [] Hp))).
  - exact (proj2 (proj1 (invalid_json_argument_is_reported
                           example_client (lit "r1") (lit "{not valid json")
                           (answering 200 None []) [] Hp))).
Defined.

(** ** C5 *)

(** C5, as stated, fails for a content type that indicates JSON in a
    spelling other than the one the code looks for.  Media types compare
    without regard to case and a [+json] type is JSON, yet for
    [Application/JSON] and for [application/vnd.api+json] the body
    [{"id":"abc"}] is returned as text, not as the object it parses to.  The
    other way round, [text/plain] with a parameter that holds
    [application/json] has its body parsed, and the call throws. *)
Lemma json_in_another_spelling_is_text :
  let body := quoted "{'id':'abc'}" in
  let parsed := JObj [(lit "id", JStr (lit "abc"))] in
  JSON_parse body = Some parsed /\
  fst (getEndpoint example_client (lit "d1")
                   (answering 200 (Some (lit "Application/JSON")) body) []) =
    Return (JStr body) /\
  fst (getEndpoint example_client (lit "d1")
                   (answering 200 (Some (lit "application/vnd.api+json")) body)
                   []) =
    Return (JStr body) /\
  JStr body <> parsed /\
  fst (getEndpoint example_client (lit "d1")
                   (answering 200 (Some (lit "text/plain; x=application/json"))
                              (lit "hello")) []) =
    Throw (SyntaxError (lit "Unexpected token in JSON")).
Proof.
  cbv zeta. split; [vm_compute; reflexivity|].
  split; [vm_compute; reflexivity|].
  split; [vm_compute; reflexivity|].
  split; [discriminate|].
  vm_compute. reflexivity.
Qed.

(** C5, amended: for every response with a success status, what [request]
    returns is [decode_response] of the content-type header and the body
    alone: with a content type that contains the characters
    [application/json], in exactly this spelling, the body is parsed and the
    value returned, otherwise the body text is returned as a string; a body
    so declared that does not parse makes the call throw the
    [SyntaxError]. *)
Theorem success_is_decoded_by_content_type (this : NeatPulseClient)
  (method path : jsstring) (body : option value) (env : Env)
  (log : list Request) (res : Response) (text : jsstring) :
  remote env log (request_options this method path body) = Return res ->
  ok res = true ->
  body_text res = Return text ->
  let declared_json :=
    includes (match content_type res with Some ct => ct | None => [] end)
             (lit "application/json") in
  fst (request this method path body env log) =
    decode_response env (content_type res) (body_text res) /\
  (declared_json = true ->
   forall v, JSON_parse text = Some v ->
             fst (request this method path body env log) = Return v) /\
  (declared_json = true ->
   JSON_parse text = None ->
   fst (request this method path body env log) =
     Throw (SyntaxError (syntax_message env text))) /\
  (declared_json = false ->
   fst (request this method path body env log) = Return (JStr text)).
Proof.
  intros Hres Hok Hbody declared_json. subst declared_json.
  rewrite (request_ok _ _ _ _ _ _ _ Hres Hok). cbn [fst].
  unfold decode_response. rewrite Hbody.
  split; [reflexivity|]. split; [|split].
  - intros -> v ->. reflexivity.
  - intros -> ->. reflexivity.
  - intros ->. reflexivity.
Qed.

Lemma success_is_decoded_example :
  let env := answering 200 (Some (lit "application/json; charset=utf-8"))
                       (quoted "{'id':'abc'}") in
  fst (getEndpoint example_client (lit "d1") env []) =
    Return (JObj [(lit "id", JStr (lit "abc"))]).
Proof.
  refine (proj1 (proj2 (success_is_decoded_by_content_type
            example_client (lit "GET") (lit "/endpoints/d1") None
            (answering 200 (Some (lit "application/json; charset=utf-8"))
                       (quoted "{'id':'abc'}")) []
            {| status := 200;
               content_type := Some (lit "application/json; charset=utf-8");
               body_text := Return (quoted "{'id':'abc'}") |}
            (quoted "{'id':'abc'}") eq_refl eq_refl eq_refl)) _ _ _).
  - vm_compute. reflexivity.
  - vm_compute. reflexivity.
Defined.

(** ** C10 *)

(** C10: for every response with a success status and no content-type
    header, the content type is taken as the empty string, which does not
    contain [application/json]: [request] returns the body text as a string,
    without parsing it, whatever the text is. *)
Theorem missing_content_type_is_text (this : NeatPulseClient)
  (method path : jsstring) (body : option value) (env : Env)
  (log : list Request) (res : Response) (text : jsstring) :
  remote env log (request_options this method path body) = Return res ->
  ok res = true ->
  content_type res = None ->
  body_text res = Return text ->
  includes [] (lit "application/json") = false /\
  request this method path body env log =
    (Return (JStr text), log ++ [request_options this method path body]).
Proof.
  intros Hres Hok Hct Hbody. split; [reflexivity|].
  rewrite (request_ok _ _ _ _ _ _ _ Hres Hok).
  unfold decode_response. rewrite Hct, Hbody. reflexivity.
Qed.

Lemma missing_content_type_example :
  request example_client (lit "DELETE") (lit "/rooms/r1") None
          (answering 204 None (lit "{not valid json")) [] =
    (Return (JStr (lit "{not valid json")),
     [request_options example_client (lit "DELETE") (lit "/rooms/r1") None]).
Proof.
  exact (proj2 (missing_content_type_is_text
                  example_client (lit "DELETE") (lit "/rooms/r1") None
                  (answering 204 None (lit "{not valid json")) []
                  {| status := 204; content_type := None;
                     body_text := Return (lit "{not valid json") |}
                  (lit "{not valid json") eq_refl eq_refl eq_refl eq_refl)).
Defined.

(** ** C8 *)

(** C8: every request the client builds, whatever the method and with or
    without a body, carries exactly the three headers: [Authorization] with
    [Bearer ] and the configured API key, a JSON [Content-Type] and a JSON
    [Accept]; and every request a client method sends is one of these. *)
Theorem every_request_has_three_headers (config : PulseClientConfig)
  (call : ToolCall) (env : Env) (log : list Request) :
  let pulse := {| this_apiKey := apiKey config; this_orgId := orgId config |} in
  (forall method path body,
      req_headers (request_options pulse method path body) =
        three_headers (apiKey config)) /\
  List.length (three_headers (apiKey config)) = 3%nat /\
  req_headers (request_options pulse (lit "GET") (lit "/rooms") None) =
    req_headers (request_options pulse (lit "POST") (lit "/rooms")
                                 (Some (JObj []))) /\
  exists sent,
    snd (client_call pulse call env log) = log ++ sent /\
    (List.length sent <= 1)%nat /\
    Forall (fun req => req_headers req = three_headers (apiKey config)) sent.
Proof.
  intros pulse. split; [reflexivity|]. split; [reflexivity|].
  split; [reflexivity|].
  destruct (client_call_cases pulse call env log)
    as [(method & path & body & H) | (text & _ & H)]; rewrite H.
  - exists [request_options pulse method path body].
    rewrite request_sends. split; [reflexivity|]. split; [cbn; lia|].
    constructor; [reflexivity | constructor].
  - exists []. cbn [snd]. rewrite app_nil_r. split; [reflexivity|].
    split; [cbn; lia | constructor].
Qed.

(** ** C3 *)

(** C3, as stated, fails for the audit-log listing: with neither optional
    parameter supplied the request path still has a query string, because
    the required [from] and [to] travel in it. *)
Lemma audit_logs_query_without_optionals :
  snd (getAuditLogs example_client (lit "a") (lit "b") None None
                    (answering 200 None []) []) =
    [request_options example_client (lit "GET")
                     (lit "/audit/logs?from=a&to=b") None] /\
  includes (lit "/audit/logs?from=a&to=b") (lit "?") = true.
Proof. split; vm_compute; reflexivity. Qed.

(** C3, amended: the query string of a request holds exactly the optional
    parameters that were supplied, each as [key=value] (the value in
    form-urlencoded spelling), each decided on its own.  For the two device
    listings and for the bug report, supplying none gives a path with no
    query string.  For the audit-log listing the query string always opens
    with the required [from] and [to], followed by exactly the supplied
    optional parameters. *)
Theorem query_holds_exactly_the_supplied (this : NeatPulseClient)
  (regionId locationId pageSize : option number) (from to : jsstring)
  (pageToken : option jsstring) (ids : list jsstring)
  (uploadInCallLogs : option bool) :
  let filters :=
    spec_query_string
      [(lit "regionId", option_map Number_toString regionId);
       (lit "locationId", option_map Number_toString locationId)] in
  let upload :=
    spec_query_string
      [(lit "uploadInCallLogs", option_map Boolean_toString uploadInCallLogs)] in
  let paging :=
    spec_query_string
      [(lit "from", Some from); (lit "to", Some to);
       (lit "pageToken", pageToken);
       (lit "pageSize", option_map Number_toString pageSize)] in
  listEndpoints this regionId locationId =
    request this (lit "GET") (lit "/endpoints" ++ query_suffix filters) None /\
  getBulkSensorData this regionId locationId =
    request this (lit "GET") (lit "/endpoints/sensor" ++ query_suffix filters) None /\
  generateBugReport this ids uploadInCallLogs =
    request this (lit "POST")
            (lit "/endpoints/generate_bug_report" ++ query_suffix upload)
            (Some (JArr (map JStr ids))) /\
  getAuditLogs this from to pageToken pageSize =
    request this (lit "GET") (lit "/audit/logs?" ++ paging) None /\
  (regionId = None -> locationId = None -> query_suffix filters = []) /\
  (uploadInCallLogs = None -> query_suffix upload = []) /\
  (regionId <> None \/ locationId <> None ->
   exists c qs, filters = c :: qs /\ query_suffix filters = lit "?" ++ filters).
Proof.
  cbv zeta. repeat split.
  - destruct regionId, locationId; reflexivity.
  - destruct regionId, locationId; reflexivity.
  - destruct uploadInCallLogs; reflexivity.
  - destruct pageToken, pageSize; reflexivity.
  - intros -> ->. reflexivity.
  - intros ->. reflexivity.
  - intros H. destruct regionId as [r|], locationId as [l|];
      try (destruct H as [H|H]; congruence);
      eexists; eexists; (split; [reflexivity | reflexivity]).
Qed.

(** The example of the specification: list devices with [regionId: 7] and
    no [locationId]. *)
Lemma list_devices_region_7 :
  snd (handler example_client (list_devices (Some (Finite false 7 0)) None)
               (answering 200 None []) []) =
    [request_options example_client (lit "GET")
                     (lit "/endpoints?regionId=7") None] /\
  includes (lit "/endpoints?regionId=7") (lit "locationId") = false.
Proof. split; vm_compute; reflexivity. Qed.

(** ** C6 *)

(** C6, as stated, fails for a result that holds a number that is not
    finite: the literal [1e999] of a JSON body is read as [Infinity], the
    success envelope prints it as [null], and parsing the envelope's text
    yields [null], not the value. *)
Lemma envelope_does_not_reproduce_infinity :
  let env := answering 200 (Some (lit "application/json")) (lit "1e999") in
  fst (getEndpoint example_client (lit "d1") env []) =
    Return (JNum (Infinity false)) /\
  envelope_text (json (JNum (Infinity false))) = lit "null" /\
  JSON_parse (envelope_text (json (JNum (Infinity false)))) = Some JNull /\
  JSON_parse (envelope_text (json (JNum (Infinity false)))) <>
    Some (JNum (Infinity false)).
Proof.
  cbv zeta. split; [vm_compute; reflexivity|].
  split; [vm_compute; reflexivity|].
  split; [vm_compute; reflexivity|].
  vm_compute. discriminate.
Qed.

(** C6, amended: for every value the client returns, the text of the success
    envelope is the pretty-printed JSON serialisation of the value; parsing
    that text yields the value with every number that is not finite replaced
    by [null] and negative zero by zero, and so reproduces the value whenever
    it holds no such number. *)
Theorem success_envelope_round_trip (this : NeatPulseClient)
  (method path : jsstring) (body : option value) (env : Env)
  (log log' : list Request) (data : value) :
  request this method path body env log = (Return data, log') ->
  envelope_text (json data) = JSON_stringify_pretty data /\
  isError (json data) = None /\
  JSON_parse (envelope_text (json data)) = Some (jsonify data) /\
  (plain_numbers data = true ->
   JSON_parse (envelope_text (json data)) = Some data).
Proof.
  intros H. apply request_returns_wf in H.
  split; [reflexivity|]. split; [reflexivity|].
  cbn [envelope_text json content text].
  rewrite JSON_parse_stringify_pretty by exact H.
  split; [reflexivity|]. intros Hplain. now rewrite jsonify_plain.
Qed.

(** The example of the specification: a 200 response with a JSON content
    type and the body [{"id":"abc"}]. *)
Lemma success_envelope_example :
  let env := answering 200 (Some (lit "application/json")) (quoted "{'id':'abc'}") in
  let data := JObj [(lit "id", JStr (lit "abc"))] in
  handler example_client (get_device (lit "d1")) env [] =
    (Return (json data),
     [request_options example_client (lit "GET") (lit "/endpoints/d1") None]) /\
  JSON_parse (quoted "{'id':'abc'}") = Some data /\
  JSON_parse (envelope_text (json data)) = Some data.
Proof.
  cbv zeta. split; [vm_compute; reflexivity|].
  split; [vm_compute; reflexivity|].
  refine (proj2 (proj2 (proj2 (success_envelope_round_trip
            example_client (lit "GET") (lit "/endpoints/d1") None
            (answering 200 (Some (lit "application/json")) (quoted "{'id':'abc'}"))
            [] _ (JObj [(lit "id", JStr (lit "abc"))]) _))) _).
  - vm_compute. reflexivity.
  - vm_compute. reflexivity.
Defined.

(** ** C7 *)




(** Through the adapter: with well-formed numbers among the arguments,
    every request a handler sends has no payload or a payload that is the
    serialisation of a well-formed body and decodes to it up to [jsonify]. *)
Lemma tool_payload_decodes (pulse : NeatPulseClient) (call : ToolCall)
  (env : Env) (log : list Request) :
  wf_call call = true ->
  exists sent,
    snd (handler pulse call env log) = log ++ sent /\
    Forall (fun req =>
              match req_body req with
              | None => True
              | Some payload =>
                  exists b, wf_value b = true /\ payload = JSON_stringify b /\
                            JSON_parse payload = Some (jsonify b)
              end) sent.
Proof.
  intros Hwf.
  assert (Hlog : snd (handler pulse call env log) =
                 snd (client_call pulse call env log)).
  { rewrite handler_wraps.
    destruct (client_call pulse call env log) as [[d|e] l]; reflexivity. }
  rewrite Hlog.
  destruct (client_call_body_wf pulse call env log Hwf)
    as [(method & path & body & H & Hb) | (text & _ & H)]; rewrite H.
  - exists [request_options pulse method path body].
    rewrite request_sends. split; [reflexivity|].
    constructor; [|constructor].
    destruct body as [b|]; cbn [request_options req_body]; [|exact I].
    exists b. split; [exact Hb|]. split; [reflexivity|].
    now apply JSON_parse_stringify.
  - exists []. cbn [snd]. rewrite app_nil_r. split; [reflexivity | constructor].
Qed.

(** ** C9 *)

(** C9, as stated, fails: the constructor accepts an empty API key and an
    empty organisation id, and returns a client. *)
Lemma constructor_accepts_empty_strings :
  constructor {| apiKey := []; orgId := [] |} (answering 200 None []) [] =
    (Return {| this_apiKey := []; this_orgId := [] |}, []).
Proof. reflexivity. Qed.

(** C9, amended: the constructor stores the API key and the organisation id
    it is given, checks neither, and sends nothing.  Presence and
    non-emptiness are checked before it, at start-up: when either environment
    variable is unset or empty the process reports it and exits with status
    1 without constructing a client, and otherwise the client is constructed
    from the two values; start-up sends nothing either. *)
Theorem construction_stores_and_sends_nothing (config : PulseClientConfig)
  (env_apiKey env_orgId : option jsstring) (env : Env) (log : list Request) :
  constructor config env log =
    (Return {| this_apiKey := apiKey config; this_orgId := orgId config |}, log) /\
  snd (bootstrap env_apiKey env_orgId env log) = log /\
  match env_apiKey, env_orgId with
  | Some (c :: key), Some (d :: org) =>
      fst (bootstrap env_apiKey env_orgId env log) =
        Return (Started {| this_apiKey := c :: key; this_orgId := d :: org |})
  | _, _ =>
      exists line, fst (bootstrap env_apiKey env_orgId env log) =
                   Return (Exit 1 line)
  end.
Proof.
  split; [reflexivity|]. split.
  - unfold bootstrap. cbv zeta. destruct (falsy env_apiKey || falsy env_orgId);
      reflexivity.
  - destruct env_apiKey as [[|c key]|], env_orgId as [[|d org]|];
      try (eexists; reflexivity); reflexivity.
Qed.

(* ================================================================== *)
(** * Further properties of the adapter *)

(** ** The request of a call *)

(** The method, path and body of the one [request] a client method makes
    depend on the arguments alone; a JSON text argument that does not parse
    stops the call before it. *)
Lemma client_call_shape (call : ToolCall) :
  (exists method path body,
      well_shaped method path body /\
      forall pulse env log,
        client_call pulse call env log =
        request pulse method path body env log) \/
  (exists text,
      JSON_parse text = None /\
      forall pulse env log,
        client_call pulse call env log =
        (Throw (SyntaxError (syntax_message env text)), log)).
Proof.
  assert (Hshape : forall method path body,
             starts_with (lit "/") path = true ->
             (method = lit "GET" /\ body = None) \/
             (method = lit "DELETE" /\ body = None) \/
             method = lit "POST" \/
             (method = lit "PUT" /\ body <> None) ->
             well_shaped method path body) by (intros; split; assumption).
  destruct call; cbn [client_call];
    try (left; do 3 eexists; split; cycle 1;
         [ intros; reflexivity
         | apply Hshape;
           [ reflexivity
           | first [ left; split; reflexivity
                   | right; left; split; reflexivity
                   | right; right; left; reflexivity
                   | right; right; right; split; [reflexivity | discriminate] ] ] ]);
    match goal with
    | |- context [JSON_parse_M ?t] =>
        destruct (JSON_parse t) as [v|] eqn:E;
        [ left; do 3 eexists; split; cycle 1;
          [ intros; unfold bind, JSON_parse_M; rewrite E; reflexivity
          | apply Hshape; [reflexivity | right; right; left; reflexivity] ]
        | right; exists t; split; [exact E|];
          intros; unfold bind, JSON_parse_M; rewrite E; reflexivity ]
    end.
Qed.

Lemma handler_log_is_client_log (pulse : NeatPulseClient) (call : ToolCall)
  (env : Env) (log : list Request) :
  snd (handler pulse call env log) = snd (client_call pulse call env log).
Proof.
  rewrite handler_wraps.
  destruct (client_call pulse call env log) as [[d|e] l]; reflexivity.
Qed.

(** The requests of a run are those of [sent_requests], after the log. *)
Lemma handler_log (pulse : NeatPulseClient) (call : ToolCall) (env : Env)
  (log : list Request) :
  snd (handler pulse call env log) = log ++ sent_requests pulse call.
Proof.
  unfold sent_requests. rewrite !handler_log_is_client_log.
  destruct (client_call_shape call)
    as [(method & path & body & _ & H) | (text & _ & H)]; rewrite !H.
  - rewrite !request_sends. reflexivity.
  - cbn [snd]. now rewrite app_nil_r.
Qed.

Lemma sent_requests_cases (pulse : NeatPulseClient) (call : ToolCall) :
  (exists method path body,
      well_shaped method path body /\
      sent_requests pulse call = [request_options pulse method path body] /\
      forall env log,
        client_call pulse call env log =
        request pulse method path body env log) \/
  (exists text,
      JSON_parse text = None /\
      sent_requests pulse call = [] /\
      forall env log,
        client_call pulse call env log =
        (Throw (SyntaxError (syntax_message env text)), log)).
Proof.
  unfold sent_requests. rewrite handler_log_is_client_log.
  destruct (client_call_shape call)
    as [(method & path & body & Hs & H) | (text & Hp & H)].
  - left. exists method, path, body. split; [exact Hs|]. split; [|apply H].
    rewrite H, request_sends. reflexivity.
  - right. exists text. split; [exact Hp|]. split; [|apply H].
    rewrite H. reflexivity.
Qed.

(** Every handler is the wrapping of one [request], or stops at the parse
    of its JSON text argument. *)
Lemma handler_via_request (pulse : NeatPulseClient) (call : ToolCall) :
  (exists method path body,
      well_shaped method path body /\
      sent_requests pulse call = [request_options pulse method path body] /\
      forall env log,
        handler pulse call env log =
        match request pulse method path body env log with
        | (Return data, log') => (Return (json data), log')
        | (Throw e, log') => (Return (error (message e)), log')
        end) \/
  (exists text,
      JSON_parse text = None /\
      sent_requests pulse call = [] /\
      forall env log,
        handler pulse call env log =
        (Return (error (syntax_message env text)), log)).
Proof.
  destruct (sent_requests_cases pulse call)
    as [(method & path & body & Hs & Hsent & H) | (text & Hp & Hsent & H)].
  - left. exists method, path, body. split; [exact Hs|]. split; [exact Hsent|].
    intros env log. rewrite handler_wraps, H. reflexivity.
  - right. exists text. split; [exact Hp|]. split; [exact Hsent|].
    intros env log. rewrite handler_wraps, H. reflexivity.
Qed.

Lemma starts_with_slash (path : jsstring) :
  starts_with (lit "/") path = true -> exists p, path = lit "/" ++ p.
Proof.
  destruct path as [|c p]; [discriminate|].
  change (lit "/") with [47%N]. cbn [starts_with].
  rewrite andb_true_r. intros H. apply N.eqb_eq in H. subst c.
  exists p. reflexivity.
Qed.

(** Unfolding the methods of the client to their [request]. *)
Ltac unfold_client :=
  cbv beta iota zeta delta
    [listEndpoints getEndpoint getEndpointSettings applyEndpointConfig
     rebootEndpoint deleteEndpoint getEndpointSensorData getBulkSensorData
     listRooms getRoom createRoom updateRoom deleteRoom getRoomSensorData
     getBulkRoomSensorData regenerateRoomDec listLocations createLocation
     updateLocation deleteLocation listRegions createRegion updateRegion
     deleteRegion listProfiles getAuditLogs generateBugReport listRoomNotes
     getRoomNote createRoomNote deleteRoomNote listAllRoomNotes listUsers
     getUser createUser updateUser deleteUser].

Ltac unfold_client_in H :=
  cbv beta iota zeta delta
    [listEndpoints getEndpoint getEndpointSettings applyEndpointConfig
     rebootEndpoint deleteEndpoint getEndpointSensorData getBulkSensorData
     listRooms getRoom createRoom updateRoom deleteRoom getRoomSensorData
     getBulkRoomSensorData regenerateRoomDec listLocations createLocation
     updateLocation deleteLocation listRegions createRegion updateRegion
     deleteRegion listProfiles getAuditLogs generateBugReport listRoomNotes
     getRoomNote createRoomNote deleteRoomNote listAllRoomNotes listUsers
     getUser createUser updateUser deleteUser] in H.

(** The one request of a run, from the equation of its log. *)
Lemma log_one_request (pulse : NeatPulseClient) (method path : jsstring)
  (body : option value) (env : Env) (log : list Request) (req : Request) :
  snd (request pulse method path body env log) = log ++ [req] ->
  req = request_options pulse method path body.
Proof.
  rewrite request_sends. intros H. apply app_inv_head in H.
  now injection H.
Qed.

Lemma log_no_request (log : list Request) (req : Request) :
  log = log ++ [req] -> False.
Proof.
  intros H. apply (f_equal (@List.length Request)) in H.
  rewrite length_app in H. cbn [List.length] in H. lia.
Qed.

(** ** X1 *)

(** X1: the requests a handler sends are fixed by the client and the
    arguments of the call: whatever the network answers and whatever was
    sent before, the same list is appended to the log.  The list holds at
    most one request.  Every tool other than apply-device-config and
    create-room-note sends exactly one, and these two send none when their
    JSON text does not parse. *)
Theorem handler_requests_are_fixed (pulse : NeatPulseClient) (call : ToolCall) :
  exists sent,
    (List.length sent <= 1)%nat /\
    (forall env log, snd (handler pulse call env log) = log ++ sent) /\
    match call with
    | apply_device_config _ t | create_room_note _ t =>
        JSON_parse t = None -> sent = []
    | _ => List.length sent = 1%nat
    end.
Proof.
  exists (sent_requests pulse call). split; [|split].
  - destruct (sent_requests_cases pulse call)
      as [(m & p & b & _ & -> & _) | (t & _ & -> & _)]; cbn; lia.
  - intros env log. apply handler_log.
  - unfold sent_requests. rewrite handler_log_is_client_log.
    destruct call; cbn [client_call]; unfold_client;
      try (rewrite request_sends; reflexivity);
      unfold bind, JSON_parse_M; intros Hp; rewrite Hp; reflexivity.
Qed.

(** ** X2 *)

(** X2: every request a handler sends goes to the fixed base address, under
    the prefix of the configured organisation: its URL is the base, [/orgs/],
    the organisation id and a path that starts with a slash. *)
Theorem requests_are_organisation_scoped (pulse : NeatPulseClient)
  (call : ToolCall) (env : Env) (log : list Request) :
  exists sent,
    snd (handler pulse call env log) = log ++ sent /\
    Forall (fun req =>
              (exists path,
                  req_url req =
                  lit "https://api.pulse.neat.no/v1" ++ lit "/orgs/" ++
                  this_orgId pulse ++ lit "/" ++ path) /\
              starts_with (lit "https://api.pulse.neat.no/v1/orgs/" ++
                           this_orgId pulse ++ lit "/") (req_url req) = true)
           sent.
Proof.
  exists (sent_requests pulse call). split; [apply handler_log|].
  destruct (sent_requests_cases pulse call)
    as [(m & p & b & (Hslash & _) & -> & _) | (t & _ & -> & _)];
    [|constructor].
  constructor; [|constructor].
  apply starts_with_slash in Hslash as [p' ->].
  cbn [request_options req_url]. unfold url, BASE_URL. split.
  - exists p'. reflexivity.
  - change (lit "https://api.pulse.neat.no/v1" ++ lit "/orgs/" ++
            this_orgId pulse ++ lit "/" ++ p')
      with (lit "https://api.pulse.neat.no/v1/orgs/" ++
            this_orgId pulse ++ lit "/" ++ p').
    rewrite !app_assoc. rewrite <- (app_assoc _ (this_orgId pulse)).
    apply starts_with_app.
Qed.

(** ** X3 *)

(** X3: the HTTP method of a tool's request follows the tool's name: a tool
    named [list_...] or [get_...] sends a GET without payload, [delete_...] a
    DELETE without payload, [create_...] a POST with a payload, [update_...]
    a PUT with a payload, and each of the remaining tools a POST. *)
Theorem method_follows_tool_name (pulse : NeatPulseClient) (call : ToolCall)
  (env : Env) (log : list Request) (req : Request) :
  snd (handler pulse call env log) = log ++ [req] ->
  let named := fun prefix => starts_with (lit prefix) (tool_name call) in
  (named "list_"%string || named "get_"%string = true ->
   req_method req = lit "GET" /\ req_body req = None) /\
  (named "delete_"%string = true ->
   req_method req = lit "DELETE" /\ req_body req = None) /\
  (named "create_"%string = true ->
   req_method req = lit "POST" /\ req_body req <> None) /\
  (named "update_"%string = true ->
   req_method req = lit "PUT" /\ req_body req <> None) /\
  (named "list_"%string || named "get_"%string || named "delete_"%string ||
   named "create_"%string || named "update_"%string = false ->
   req_method req = lit "POST").
Proof.
  intros H named. subst named. rewrite handler_log_is_client_log in H.
  destruct call; cbn [client_call] in H; unfold_client_in H;
    try (apply log_one_request in H; subst req;
         cbn [tool_name request_options req_method req_body];
         (split; [|split; [|split; [|split]]]); intros Hp;
         first [ vm_compute in Hp; discriminate Hp
               | split; [reflexivity | first [reflexivity | discriminate]]
               | reflexivity ]);
    unfold bind, JSON_parse_M in H;
    match type of H with
    | context [JSON_parse ?t] => destruct (JSON_parse t)
    end;
    try (cbn [snd] in H; exfalso; exact (log_no_request _ _ H));
    apply log_one_request in H; subst req;
    cbn [tool_name request_options req_method req_body];
    (split; [|split; [|split; [|split]]]); intros Hp;
    first [ vm_compute in Hp; discriminate Hp
          | split; [reflexivity | first [reflexivity | discriminate]]
          | reflexivity ].
Qed.

(** A call of delete-room-note. *)
Lemma method_follows_tool_name_example :
  let req := request_options example_client (lit "DELETE")
                             (lit "/rooms/r1/notes/n1") None in
  snd (handler example_client (delete_room_note (lit "r1") (lit "n1"))
               (answering 204 None []) []) = [req] /\
  req_method req = lit "DELETE" /\ req_body req = None.
Proof.
  cbv zeta. split; [vm_compute; reflexivity|].
  exact (proj1 (proj2 (method_follows_tool_name
                         example_client (delete_room_note (lit "r1") (lit "n1"))
                         (answering 204 None []) [] _ eq_refl)) eq_refl).
Defined.

(** ** X4 *)

(** X4: the API key travels in the [Authorization] header and nowhere
    else: for two clients of the same organisation, whatever their keys, a
    call sends requests with the same URL, method and payload, and each
    carries [Bearer] and its own client's key. *)
Theorem api_key_only_in_authorization (pulse1 pulse2 : NeatPulseClient)
  (call : ToolCall) (env1 env2 : Env) (log1 log2 : list Request) :
  this_orgId pulse1 = this_orgId pulse2 ->
  exists sent1 sent2,
    snd (handler pulse1 call env1 log1) = log1 ++ sent1 /\
    snd (handler pulse2 call env2 log2) = log2 ++ sent2 /\
    map (fun r => (req_url r, req_method r, req_body r)) sent1 =
    map (fun r => (req_url r, req_method r, req_body r)) sent2 /\
    Forall (fun r => req_headers r = three_headers (this_apiKey pulse1)) sent1 /\
    Forall (fun r => req_headers r = three_headers (this_apiKey pulse2)) sent2.
Proof.
  intros Horg.
  exists (sent_requests pulse1 call), (sent_requests pulse2 call).
  split; [apply handler_log|]. split; [apply handler_log|].
  unfold sent_requests. rewrite !handler_log_is_client_log.
  destruct (client_call_shape call)
    as [(m & p & b & _ & H) | (t & _ & H)]; rewrite !H.
  - rewrite !request_sends. cbn [app map request_options req_url req_method
                                 req_body req_headers].
    unfold url. rewrite Horg. split; [reflexivity|].
    split; (constructor; [reflexivity | constructor]).
  - cbn [snd map]. repeat split; constructor.
Qed.

Lemma api_key_only_in_authorization_example :
  let other := {| this_apiKey := lit "OTHER"; this_orgId := lit "org1" |} in
  map (fun r => (req_url r, req_method r, req_body r))
      (snd (handler example_client (get_room (lit "r1")) (answering 200 None []) [])) =
  map (fun r => (req_url r, req_method r, req_body r))
      (snd (handler other (get_room (lit "r1")) (answering 200 None []) [])).
Proof.
  cbv zeta.
  destruct (api_key_only_in_authorization
              example_client
              {| this_apiKey := lit "OTHER"; this_orgId := lit "org1" |}
              (get_room (lit "r1")) (answering 200 None []) (answering 200 None [])
              [] [] eq_refl)
    as (sent1 & sent2 & H1 & H2 & H & _).
  cbn [app] in H1, H2. rewrite H1, H2. exact H.
Defined.

(** ** X5 *)

(** X5: when [fetch] rejects, as it does when the network is down, the
    rejection leaves [request] unchanged and the handler reports it: the
    result is the error envelope of the rejection's message, and the one
    request of the call was sent.  A JSON text argument that does not parse
    is reported before anything is sent. *)
Theorem fetch_rejection_is_reported (pulse : NeatPulseClient) (call : ToolCall)
  (env : Env) (log : list Request) (e : JsError) :
  (forall sent req, remote env sent req = Throw e) ->
  (exists req,
      sent_requests pulse call = [req] /\
      handler pulse call env log = (Return (error (message e)), log ++ [req])) \/
  (exists text,
      JSON_parse text = None /\
      handler pulse call env log =
      (Return (error (syntax_message env text)), log)).
Proof.
  intros Hnet.
  destruct (handler_via_request pulse call)
    as [(m & p & b & _ & Hsent & H) | (t & Hp & _ & H)].
  - left. exists (request_options pulse m p b). split; [exact Hsent|].
    rewrite H, (request_rejected _ _ _ _ _ _ _ (Hnet _ _)). reflexivity.
  - right. exists t. split; [exact Hp | apply H].
Qed.

Lemma fetch_rejection_example :
  handler example_client list_rooms
          (rejecting (mkError (lit "TypeError") (lit "fetch failed"))) [] =
    (Return (error (lit "fetch failed")),
     [request_options example_client (lit "GET") (lit "/rooms") None]).
Proof.
  destruct (fetch_rejection_is_reported
              example_client list_rooms
              (rejecting (mkError (lit "TypeError") (lit "fetch failed"))) []
              (mkError (lit "TypeError") (lit "fetch failed"))
              (fun _ _ => eq_refl))
    as [(req & Hsent & H) | (text & _ & H)].
  - rewrite H. vm_compute in Hsent. injection Hsent as <-. reflexivity.
  - vm_compute in H. discriminate H.
Defined.

(** ** X6 *)

(** X6: when the service answers with a status outside 200 to 299, the
    handler returns an error envelope whose text is [Error: Neat Pulse API],
    the method and path of the call's request, [returned], the status and
    the body text of the response, whatever the content type of the response
    is. *)
Theorem http_failure_is_reported (pulse : NeatPulseClient) (call : ToolCall)
  (env : Env) (log : list Request) (res : Response) :
  (forall sent req, remote env sent req = Return res) ->
  ok res = false ->
  (exists method path body,
      sent_requests pulse call = [request_options pulse method path body] /\
      fst (handler pulse call env log) =
        Return (error (failure_message method path (status res)
                                       (text_or_empty (body_text res)))) /\
      envelope_text (error (failure_message method path (status res)
                                            (text_or_empty (body_text res)))) =
        lit "Error: Neat Pulse API " ++ method ++ lit " " ++ path ++
        lit " returned " ++ Number_toString (int_number (status res)) ++
        lit ": " ++ text_or_empty (body_text res)) \/
  (exists text,
      JSON_parse text = None /\
      handler pulse call env log =
      (Return (error (syntax_message env text)), log)).
Proof.
  intros Hnet Hok.
  destruct (handler_via_request pulse call)
    as [(m & p & b & _ & Hsent & H) | (t & Hp & _ & H)].
  - left. exists m, p, b. split; [exact Hsent|].
    rewrite H, (request_not_ok _ _ _ _ _ _ _ (Hnet _ _) Hok).
    split; reflexivity.
  - right. exists t. split; [exact Hp | apply H].
Qed.

Lemma http_failure_example :
  fst (handler example_client (reboot_device (lit "d1"))
               (answering 503 (Some (lit "application/json"))
                          (quoted "{'error':'busy'}")) []) =
    Return (error (quoted "Neat Pulse API POST /endpoints/d1/reboot returned 503: {'error':'busy'}")).
Proof.
  destruct (http_failure_is_reported
              example_client (reboot_device (lit "d1"))
              (answering 503 (Some (lit "application/json"))
                         (quoted "{'error':'busy'}")) []
              {| status := 503; content_type := Some (lit "application/json");
                 body_text := Return (quoted "{'error':'busy'}") |}
              (fun _ _ => eq_refl) eq_refl)
    as [(m & p & b & _ & _ & _) | (text & _ & H)].
  - vm_compute. reflexivity.
  - vm_compute in H. discriminate H.
Defined.

(** ** X7 *)

(** X7: when the service answers a success status with a content type that
    does not include [application/json] (or none) and the body text [t], the
    handler returns the success envelope of the string [t]: its text is [t]
    as a JSON string literal, which parses back to [t].  For an empty body,
    as with 204, the text is two double quotes. *)
Theorem text_response_is_quoted (pulse : NeatPulseClient) (call : ToolCall)
  (env : Env) (log : list Request) (res : Response) (t : jsstring) :
  (forall sent req, remote env sent req = Return res) ->
  ok res = true ->
  includes (match content_type res with Some ct => ct | None => [] end)
           (lit "application/json") = false ->
  body_text res = Return t ->
  ((exists req,
       sent_requests pulse call = [req] /\
       handler pulse call env log = (Return (json (JStr t)), log ++ [req])) \/
   (exists text,
       JSON_parse text = None /\
       handler pulse call env log =
       (Return (error (syntax_message env text)), log))) /\
  envelope_text (json (JStr t)) = QuoteJSONString t /\
  JSON_parse (envelope_text (json (JStr t))) = Some (JStr t) /\
  (t = [] -> envelope_text (json (JStr t)) = [34%N; 34%N]).
Proof.
  intros Hnet Hok Hct Hbody. split; [|split; [|split]].
  - destruct (handler_via_request pulse call)
      as [(m & p & b & _ & Hsent & H) | (x & Hp & _ & H)].
    + left. exists (request_options pulse m p b). split; [exact Hsent|].
      rewrite H, (request_ok _ _ _ _ _ _ _ (Hnet _ _) Hok).
      unfold decode_response. rewrite Hbody, Hct. reflexivity.
    + right. exists x. split; [exact Hp | apply H].
  - reflexivity.
  - cbn [envelope_text json content text].
    now rewrite JSON_parse_stringify_pretty.
  - intros ->. reflexivity.
Qed.

Lemma text_response_example :
  handler example_client (delete_user (lit "u1")) (answering 204 None []) [] =
    (Return (json (JStr [])),
     [request_options example_client (lit "DELETE") (lit "/users/u1") None]) /\
  envelope_text (json (JStr [])) = [34%N; 34%N].
Proof.
  destruct (text_response_is_quoted
              example_client (delete_user (lit "u1")) (answering 204 None []) []
              {| status := 204; content_type := None; body_text := Return [] |}
              [] (fun _ _ => eq_refl) eq_refl eq_refl eq_refl)
    as ([(req & Hsent & H) | (text & _ & H)] & _ & _ & Hempty).
  - split; [|exact (Hempty eq_refl)].
    rewrite H. vm_compute in Hsent. injection Hsent as <-. reflexivity.
  - vm_compute in H. discriminate H.
Defined.

(** ** X8 *)

(** X8: a body that cannot be read is treated differently on the two
    paths.  After a success status, with either content type, the read error
    leaves [request] as it is, and the handler reports its message.  After a
    failure status the read error is dropped and the [Error] of the status is
    thrown with an empty body text. *)
Theorem unreadable_body_on_each_path (this : NeatPulseClient)
  (method path : jsstring) (body : option value) (env : Env)
  (log : list Request) (res : Response) (e : JsError) :
  remote env log (request_options this method path body) = Return res ->
  body_text res = Throw e ->
  (ok res = true ->
   request this method path body env log =
     (Throw e, log ++ [request_options this method path body])) /\
  (ok res = false ->
   request this method path body env log =
     (Throw (Error (failure_message method path (status res) [])),
      log ++ [request_options this method path body])).
Proof.
  intros Hres Hbody. split; intros Hok.
  - rewrite (request_ok _ _ _ _ _ _ _ Hres Hok).
    unfold decode_response. now rewrite Hbody.
  - rewrite (request_not_ok _ _ _ _ _ _ _ Hres Hok). now rewrite Hbody.
Qed.

Lemma unreadable_body_example :
  let e := mkError (lit "TypeError") (lit "terminated") in
  handler example_client list_users
          (unreadable 200 (Some (lit "application/json")) e) [] =
    (Return (error (lit "terminated")),
     [request_options example_client (lit "GET") (lit "/users") None]) /\
  handler example_client list_users
          (unreadable 500 (Some (lit "application/json")) e) [] =
    (Return (error (lit "Neat Pulse API GET /users returned 500: ")),
     [request_options example_client (lit "GET") (lit "/users") None]).
Proof.
  cbv zeta.
  pose proof (unreadable_body_on_each_path
                example_client (lit "GET") (lit "/users") None
                (unreadable 200 (Some (lit "application/json"))
                            (mkError (lit "TypeError") (lit "terminated"))) []
                _ _ eq_refl eq_refl) as [H200 _].
  pose proof (unreadable_body_on_each_path
                example_client (lit "GET") (lit "/users") None
                (unreadable 500 (Some (lit "application/json"))
                            (mkError (lit "TypeError") (lit "terminated"))) []
                _ _ eq_refl eq_refl) as [_ H500].
  specialize (H200 eq_refl). specialize (H500 eq_refl).
  split.
  - rewrite handler_wraps. cbn [client_call]. unfold listUsers.
    rewrite H200. reflexivity.
  - rewrite handler_wraps. cbn [client_call]. unfold listUsers.
    rewrite H500. reflexivity.
Defined.

(** ** X9 *)

(** X9: a success response that declares JSON and has an empty body, or a
    body of white space only, makes the call fail: [res.json()] throws the
    [SyntaxError], [request] throws it on, and the handler returns its error
    envelope although the status was a success. *)
Theorem blank_json_body_is_an_error (this : NeatPulseClient)
  (method path : jsstring) (body : option value) (env : Env)
  (log : list Request) (res : Response) (blank : jsstring) :
  remote env log (request_options this method path body) = Return res ->
  ok res = true ->
  includes (match content_type res with Some ct => ct | None => [] end)
           (lit "application/json") = true ->
  body_text res = Return blank ->
  forallb is_ws blank = true ->
  JSON_parse blank = None /\
  request this method path body env log =
    (Throw (SyntaxError (syntax_message env blank)),
     log ++ [request_options this method path body]).
Proof.
  intros Hres Hok Hct Hbody Hblank.
  assert (Hskip : skip_ws blank = []).
  { clear Hres Hbody. induction blank as [|c w IH]; [reflexivity|].
    cbn [forallb] in Hblank. apply andb_true_iff in Hblank as [Hc Hw].
    cbn [skip_ws]. rewrite Hc. exact (IH Hw). }
  assert (Hparse : JSON_parse blank = None).
  { unfold JSON_parse.
    replace (2 * List.length blank + 1)%nat with (S (2 * List.length blank)) by lia.
    cbn [parse_value]. now rewrite Hskip. }
  split; [exact Hparse|].
  rewrite (request_ok _ _ _ _ _ _ _ Hres Hok).
  unfold decode_response. now rewrite Hbody, Hct, Hparse.
Qed.

Lemma blank_json_body_example :
  handler example_client (delete_room (lit "r1"))
          (answering 200 (Some (lit "application/json")) []) [] =
    (Return (error (lit "Unexpected token in JSON")),
     [request_options example_client (lit "DELETE") (lit "/rooms/r1") None]).
Proof.
  rewrite handler_wraps. cbn [client_call]. unfold deleteRoom.
  rewrite (proj2 (blank_json_body_is_an_error
                    example_client (lit "DELETE") (lit "/rooms/" ++ lit "r1") None
                    (answering 200 (Some (lit "application/json")) []) []
                    {| status := 200;
                       content_type := Some (lit "application/json");
                       body_text := Return [] |}
                    [] eq_refl eq_refl eq_refl eq_refl eq_refl)).
  reflexivity.
Defined.

(** ** Requests of a call, payloads and escaping *)

(** The request of a call that comes down to one [request]. *)
Lemma sent_requests_of (pulse : NeatPulseClient) (call : ToolCall)
  (method path : jsstring) (body : option value) :
  (forall env log,
      client_call pulse call env log = request pulse method path body env log) ->
  sent_requests pulse call = [request_options pulse method path body].
Proof.
  intros H. unfold sent_requests.
  rewrite handler_log_is_client_log, H, request_sends. reflexivity.
Qed.

(** Serialising drops what [jsonify] drops. *)
Lemma serialize_jsonify (gap : jsstring) (v : value) :
  forall indent, serialize gap indent (jsonify v) = serialize gap indent v.
Proof.
  induction v as [| b | n | s | l IH | o IH] using value_induction;
    intros indent; try reflexivity.
  - destruct n as [| neg | neg | neg m e]; reflexivity.
  - cbn [jsonify serialize]. rewrite map_map.
    replace (map (fun x => serialize gap (indent ++ gap) (jsonify x)) l)
      with (map (serialize gap (indent ++ gap)) l); [reflexivity|].
    induction IH as [|x l Hx _ IHl]; [reflexivity|].
    cbn [map]. now rewrite Hx, IHl.
  - cbn [jsonify serialize]. rewrite map_map. cbn [fst snd].
    replace (map (fun x : jsstring * value =>
                    QuoteJSONString (fst x) ++ lit ":" ++
                    (if is_empty gap then [] else lit " ") ++
                    serialize gap (indent ++ gap) (jsonify (snd x))) o)
      with (map (fun kv : jsstring * value =>
                   QuoteJSONString (fst kv) ++ lit ":" ++
                   (if is_empty gap then [] else lit " ") ++
                   serialize gap (indent ++ gap) (snd kv)) o); [reflexivity|].
    induction IH as [|x o Hx _ IHo]; [reflexivity|].
    cbn [map]. now rewrite Hx, IHo.
Qed.

Lemma plain_strings (l : list jsstring) : plain_numbers (JArr (map JStr l)) = true.
Proof. cbn [plain_numbers]. induction l as [|x l IH]; [reflexivity | exact IH]. Qed.

Lemma urlencode_byte_clean (b : N) :
  forallb (fun c => negb (query_separator c)) (urlencode_byte b) = true.
Proof.
  unfold urlencode_byte. destruct (b =? 32)%N eqn:Hsp; [reflexivity|].
  destruct (urlencoded_safe b) eqn:Hs.
  - cbn [forallb]. unfold urlencoded_safe in Hs. unfold query_separator.
    rewrite !orb_true_iff, !andb_true_iff, !N.eqb_eq, !N.leb_le in Hs.
    rewrite andb_true_r, negb_true_iff, !orb_false_iff, !N.eqb_neq. lia.
  - cbn [forallb]. unfold hex_upper, query_separator.
    rewrite andb_true_r, !andb_true_iff, !negb_true_iff, !orb_false_iff,
      !N.eqb_neq.
    generalize (b / 16)%N (b mod 16)%N. intros h l.
    destruct (h <? 10)%N eqn:H1; destruct (l <? 10)%N eqn:H2;
      rewrite ?N.ltb_lt, ?N.ltb_ge in H1, H2; lia.
Qed.

Lemma urlencode_clean (s : jsstring) :
  forallb (fun c => negb (query_separator c)) (urlencode s) = true.
Proof.
  unfold urlencode.
  induction (flat_map utf8_encode (code_points s)) as [|b l IH]; [reflexivity|].
  cbn [flat_map]. now rewrite forallb_app, urlencode_byte_clean, IH.
Qed.

Lemma count_urlencode (c : code_unit) (s : jsstring) :
  query_separator c = true -> count_occ N.eq_dec (urlencode s) c = 0%nat.
Proof.
  intros Hc. apply count_occ_not_In. intros Hin.
  pose proof (urlencode_clean s) as H. rewrite forallb_forall in H.
  specialize (H c Hin). now rewrite Hc in H.
Qed.

Lemma join_cons2 (sep p q : jsstring) (l : list jsstring) :
  join sep (p :: q :: l) = p ++ sep ++ join sep (q :: l).
Proof. reflexivity. Qed.

(** The separators of a query string are those its serialiser writes. *)
Lemma params_toString_count (c : code_unit) (params : URLSearchParams) :
  query_separator c = true ->
  count_occ N.eq_dec (params_toString params) c =
  (List.length params * count_occ N.eq_dec (lit "=") c +
   pred (List.length params) * count_occ N.eq_dec (lit "&") c)%nat.
Proof.
  intros Hc. unfold params_toString.
  induction params as [|nv rest IH]; [reflexivity|].
  destruct rest as [|nv' rest].
  - cbn [map join List.length pred].
    rewrite !count_occ_app, !count_urlencode by exact Hc. clear IH. llia.
  - rewrite map_cons in IH. rewrite !map_cons, join_cons2. cbv beta in IH |- *.
    rewrite !count_occ_app. unfold jsstring, code_unit in *.
    rewrite IH, !count_urlencode by exact Hc.
    cbn [List.length pred]. llia.
Qed.

(** ** X10 *)

(** X10: a value put in a query string cannot add or cut a parameter.  The
    form-urlencoded spelling of any string holds none of [&], [=], [?], [#],
    [/] and no space, so a query string holds one [=] for each parameter, one
    [&] between two parameters and no [?] or [#], whatever the names and
    values hold.  The query string of the audit-log request so has the
    parameters [from] and [to] and the supplied optional ones, and no
    others. *)
Theorem query_values_are_escaped (this : NeatPulseClient) (from to : jsstring)
  (pageToken : option jsstring) (pageSize : option number) (s : jsstring)
  (params : URLSearchParams) :
  let optional := ((if is_some pageToken then 1 else 0) +
                   (if is_some pageSize then 1 else 0))%nat in
  forallb (fun c => negb (query_separator c)) (urlencode s) = true /\
  (count_occ N.eq_dec (params_toString params) 61%N = List.length params /\
   count_occ N.eq_dec (params_toString params) 38%N = pred (List.length params) /\
   count_occ N.eq_dec (params_toString params) 63%N = 0%nat /\
   count_occ N.eq_dec (params_toString params) 35%N = 0%nat) /\
  exists qs,
    getAuditLogs this from to pageToken pageSize =
      request this (lit "GET") (lit "/audit/logs?" ++ qs) None /\
    count_occ N.eq_dec qs 61%N = (2 + optional)%nat /\
    count_occ N.eq_dec qs 38%N = (1 + optional)%nat.
Proof.
  cbv zeta.
  assert (Hcount : forall ps,
             count_occ N.eq_dec (params_toString ps) 61%N = List.length ps /\
             count_occ N.eq_dec (params_toString ps) 38%N = pred (List.length ps) /\
             count_occ N.eq_dec (params_toString ps) 63%N = 0%nat /\
             count_occ N.eq_dec (params_toString ps) 35%N = 0%nat).
  { intros ps. rewrite !params_toString_count by reflexivity.
    change (count_occ N.eq_dec (lit "=") 61%N) with 1%nat.
    change (count_occ N.eq_dec (lit "&") 61%N) with 0%nat.
    change (count_occ N.eq_dec (lit "=") 38%N) with 0%nat.
    change (count_occ N.eq_dec (lit "&") 38%N) with 1%nat.
    change (count_occ N.eq_dec (lit "=") 63%N) with 0%nat.
    change (count_occ N.eq_dec (lit "&") 63%N) with 0%nat.
    change (count_occ N.eq_dec (lit "=") 35%N) with 0%nat.
    change (count_occ N.eq_dec (lit "&") 35%N) with 0%nat.
    lia. }
  split; [apply urlencode_clean|]. split; [apply Hcount|].
  eexists. split; [reflexivity|].
  destruct (Hcount (set_if_defined
                      (lit "pageSize") pageSize Number_toString
                      (set_if_defined (lit "pageToken") pageToken (fun x => x)
                                      [(lit "from", from); (lit "to", to)])))
    as (He & Ha & _).
  rewrite He, Ha.
  destruct pageToken as [t|], pageSize as [n|]; split; reflexivity.
Qed.

(** ** X11 *)

(** X11: an identifier is put in the path as it is, with no escaping: an
    identifier that holds [/] or [?] changes the resource or adds a query
    string.  A get-device call whose id ends in [/config] is the
    get-device-settings call, a delete-room call whose id holds [/notes/]
    is the delete-room-note call, and the text after a [?] in a user id is
    the query string of the request. *)
Theorem path_ids_are_not_escaped (pulse : NeatPulseClient)
  (id roomId noteId query : jsstring) (env : Env) (log : list Request) :
  handler pulse (get_device (id ++ lit "/config")) env log =
    handler pulse (get_device_settings id) env log /\
  handler pulse (delete_room (roomId ++ lit "/notes/" ++ noteId)) env log =
    handler pulse (delete_room_note roomId noteId) env log /\
  sent_requests pulse (get_user (id ++ lit "?" ++ query)) =
    [request_options pulse (lit "GET")
                     ((lit "/users/" ++ id) ++ lit "?" ++ query) None].
Proof.
  split; [|split].
  - rewrite !handler_wraps. cbn [client_call]. unfold_client. reflexivity.
  - rewrite !handler_wraps. cbn [client_call]. unfold_client. reflexivity.
  - rewrite (sent_requests_of pulse _ (lit "GET")
               (lit "/users/" ++ id ++ lit "?" ++ query) None)
      by (intros; reflexivity).
    now rewrite <- app_assoc.
Qed.

(** ** X12 *)

(** X12: an update tool puts its id in the path and only the other supplied
    arguments in the body: the request is a PUT on the resource of the id,
    the keys of its body are the optional arguments that were supplied, in
    the order of the schema, and the id is not among them.  With none
    supplied the payload is the empty object. *)
Theorem update_sends_only_the_changes (pulse : NeatPulseClient) :
  (forall id name locationId,
      exists data,
        sent_requests pulse (update_room id name locationId) =
          [request_options pulse (lit "PUT") (lit "/rooms/" ++ id) (Some data)] /\
        keys data = present [(lit "name", is_some name);
                             (lit "locationId", is_some locationId)] /\
        (name = None -> locationId = None -> JSON_stringify data = lit "{}")) /\
  (forall id name regionId,
      exists data,
        sent_requests pulse (update_location id name regionId) =
          [request_options pulse (lit "PUT")
                           (lit "/locations/" ++ Number_toString id) (Some data)] /\
        keys data = present [(lit "name", is_some name);
                             (lit "regionId", is_some regionId)] /\
        (name = None -> regionId = None -> JSON_stringify data = lit "{}")) /\
  (forall id name,
      exists data,
        sent_requests pulse (update_region id name) =
          [request_options pulse (lit "PUT")
                           (lit "/regions/" ++ Number_toString id) (Some data)] /\
        keys data = [lit "name"]) /\
  (forall id role regionIds,
      exists data,
        sent_requests pulse (update_user id role regionIds) =
          [request_options pulse (lit "PUT") (lit "/users/" ++ id) (Some data)] /\
        keys data = present [(lit "role", is_some role);
                             (lit "regionIds", is_some regionIds)] /\
        (role = None -> regionIds = None -> JSON_stringify data = lit "{}")).
Proof.
  split; [|split; [|split]].
  - intros id name locationId. eexists.
    split; [apply sent_requests_of; intros; reflexivity|].
    split; [destruct name, locationId; reflexivity|].
    intros -> ->. reflexivity.
  - intros id name regionId. eexists.
    split; [apply sent_requests_of; intros; reflexivity|].
    split; [destruct name, regionId; reflexivity|].
    intros -> ->. reflexivity.
  - intros id name. eexists.
    split; [apply sent_requests_of; intros; reflexivity|]. reflexivity.
  - intros id role regionIds. eexists.
    split; [apply sent_requests_of; intros; reflexivity|].
    split; [destruct role, regionIds; reflexivity|].
    intros -> ->. reflexivity.
Qed.

(** ** X13 *)

(** X13: the bug-report tool posts its list of device ids as the payload, a
    JSON array of strings that decodes to exactly the list, whatever the ids
    hold; the ids are not in the path.  The path ends in
    [generate_bug_report], followed by [?uploadInCallLogs=true] or
    [?uploadInCallLogs=false] when the flag is supplied. *)
Theorem bug_report_ids_round_trip (pulse : NeatPulseClient)
  (ids : list jsstring) (uploadInCallLogs : option bool) :
  exists path payload,
    sent_requests pulse (generate_bug_report ids uploadInCallLogs) =
      [ {| req_url := url pulse path; req_method := lit "POST";
           req_headers := headers pulse; req_body := Some payload |} ] /\
    path = lit "/endpoints/generate_bug_report" ++
           match uploadInCallLogs with
           | Some flag => lit "?uploadInCallLogs=" ++ Boolean_toString flag
           | None => []
           end /\
    JSON_parse payload = Some (JArr (map JStr ids)) /\
    (ids = [] -> payload = lit "[]").
Proof.
  exists (lit "/endpoints/generate_bug_report" ++
          query_suffix
            (params_toString
               (set_if_defined (lit "uploadInCallLogs") uploadInCallLogs
                               Boolean_toString []))).
  exists (JSON_stringify (JArr (map JStr ids))).
  split.
  { exact (sent_requests_of pulse (generate_bug_report ids uploadInCallLogs)
                            (lit "POST") _ (Some (JArr (map JStr ids)))
                            (fun _ _ => eq_refl)). }
  split; [destruct uploadInCallLogs as [[|]|]; vm_compute; reflexivity|].
  split.
  - rewrite JSON_parse_stringify by apply wf_value_strings.
    now rewrite jsonify_plain by apply plain_strings.
  - intros ->. reflexivity.
Qed.

(** ** X14 *)

(** X14: every payload the adapter sends is canonical JSON: it parses, and
    serialising the parsed value again gives the same text, for every tool
    and all arguments whose numbers are well formed. *)
Theorem payload_is_canonical (pulse : NeatPulseClient) (call : ToolCall)
  (req : Request) (payload : jsstring) :
  wf_call call = true ->
  In req (sent_requests pulse call) ->
  req_body req = Some payload ->
  exists v, JSON_parse payload = Some v /\ JSON_stringify v = payload.
Proof.
  intros Hwf Hin Hbody. unfold sent_requests in Hin.
  rewrite handler_log_is_client_log in Hin.
  match type of Hin with
  | In _ (snd (client_call _ _ ?env ?log)) =>
      destruct (client_call_body_wf pulse call env log Hwf)
        as [(m & p & b & H & Hb) | (t & _ & H)]; rewrite H in Hin
  end.
  - rewrite request_sends in Hin. destruct Hin as [<- | []].
    destruct b as [b|]; [|discriminate Hbody].
    cbn [request_options req_body] in Hbody. injection Hbody as <-.
    exists (jsonify b). split; [now apply JSON_parse_stringify|].
    apply serialize_jsonify.
  - destruct Hin.
Qed.

Lemma payload_is_canonical_example :
  exists v,
    JSON_parse (quoted "{'email':'a@b.c','regionIds':[1,2]}") = Some v /\
    JSON_stringify v = quoted "{'email':'a@b.c','regionIds':[1,2]}".
Proof.
  exact (payload_is_canonical
           example_client
           (create_user (lit "a@b.c") None
                        (Some [int_number 1; int_number 2]))
           (request_options
              example_client (lit "POST") (lit "/users")
              (Some (JObj [(lit "email", JStr (lit "a@b.c"));
                           (lit "regionIds",
                            JArr [JNum (int_number 1); JNum (int_number 2)])])))
           (quoted "{'email':'a@b.c','regionIds':[1,2]}")
           eq_refl (or_introl eq_refl) eq_refl).
Defined.

(** ** X15 *)

(** X15: the names the tools are registered under are pairwise distinct,
    there are 37 of them, and every call is registered under one of them. *)
Theorem tool_names_are_distinct :
  NoDup registered_names /\
  List.length registered_names = 37%nat /\
  forall call, In (tool_name call) registered_names.
Proof.
  split; [|split; [reflexivity|]].
  - assert (H : nodup (list_eq_dec N.eq_dec) registered_names = registered_names)
      by (vm_compute; reflexivity).
    rewrite <- H. apply NoDup_nodup.
  - intros call. unfold registered_names. cbn [map In].
    destruct call; cbn [tool_name];
      repeat first [left; reflexivity | right].
Qed.
